(** * The history ledger and the association rebuilder of the drawing tool

    A shallow embedding of [class HistoryModule] of [src/script.js]
    (lines 43-152): the undo/redo ledger ([enregistrerEtat], [annuler],
    [retablir], [loadState], [updateButtons]) and the pass that relinks a
    shape with its measurement label after a snapshot has been loaded
    ([reestablishAssociations]).

    The canvas object model (Fabric.js) is not part of the source: the
    ledger is stated over an arbitrary snapshot codec (a [Section] with the
    codec as [Variable]s), and the codec described in the specification is
    given afterwards, as a separate, clearly marked definition. *)

From Stdlib Require Import ZArith Lia.
From stdpp Require Import base numbers option list strings.

Open Scope Z_scope.

(** ** JavaScript values *)

(** Exceptions the modelled code can throw.  [TypeError] is a property read
    on [undefined] or [null].  [UndefinedSnapshot] marks the point where
    [loadState] would hand [undefined] (an out-of-range read of
    [this.history]) to the external loader: what happens next is not decided
    by this source, so the model stops there.  A thrown exception ends the
    run: the state it leaves behind is not modelled. *)
Inductive JsError := TypeError | UndefinedSnapshot.

Definition Exc (A : Type) : Type := JsError + A.

Definition ret {A} (a : A) : Exc A := inr a.
Definition raise {A} (e : JsError) : Exc A := inl e.
Definition bind {A B} (m : Exc A) (k : A -> Exc B) : Exc B :=
  match m with
  | inl e => inl e
  | inr a => k a
  end.

Notation "'do' x <- m ; k" := (bind m (fun x => k))
  (at level 10, x name, m at level 100, k at level 200).

(** Primitive values an [id] property or a bare identifier can hold. *)
Inductive Prim :=
| PUndefined
| PNull
| PNum (n : Z)
| PStr (s : string).

#[global] Instance Prim_eq_dec : EqDecision Prim.
Proof. solve_decision. Defined.

(** JavaScript truthiness of a primitive ([if (p)]). *)
Definition prim_truthy (p : Prim) : bool :=
  match p with
  | PUndefined | PNull => false
  | PNum n => negb (n =? 0)
  | PStr s => negb (bool_decide (s = EmptyString))
  end.

(** The value of a side-channel attribute ([obj.measurementText] or
    [obj.lengthMeasurementText]):
    - a primitive ([undefined] when the property is absent, or a bare
      identifier),
    - a plain object decoded from a snapshot that is not itself a canvas
      object, with its [id] and [text] properties,
    - a live reference to the canvas object at position [k] of
      [canvas.getObjects()]. *)
Inductive Attr :=
| APrim (p : Prim)
| APlain (id : Prim) (text : string)
| ALive (k : nat).

#[global] Instance Attr_eq_dec : EqDecision Attr.
Proof. solve_decision. Defined.

Definition truthy (a : Attr) : bool :=
  match a with
  | APrim p => prim_truthy p
  | APlain _ _ | ALive _ => true
  end.


Definition is_live (a : Attr) : bool :=
  match a with
  | ALive _ => true
  | _ => false
  end.

(** A canvas object, with the properties the history module reads. *)
Record Obj := mkObj {
  o_type : string;
  o_id : Prim;
  o_text : string;
  measurementText : Attr;
  lengthMeasurementText : Attr
}.

#[global] Instance Obj_eq_dec : EqDecision Obj.
Proof. solve_decision. Defined.

(** [canvas.getObjects()]: the objects in paint order.  A live reference is
    a position in this list, so two attributes holding the same position are
    aliases of one object. *)
Abbreviation Canvas := (list Obj).

Definition set_measurementText (a : Attr) (o : Obj) : Obj :=
  mkObj (o_type o) (o_id o) (o_text o) a (lengthMeasurementText o).

Definition set_lengthMeasurementText (a : Attr) (o : Obj) : Obj :=
  mkObj (o_type o) (o_id o) (o_text o) (measurementText o) a.

(** ** [reestablishAssociations] (script.js:134-151) *)

(** [a.id] for an attribute value [a].  Reading a property of [undefined]
    or [null] throws; a number or a string has no [id]; a live reference
    answers the [id] of the canvas object it points to (an object that is
    not on the canvas has never been given an [id] by this program). *)
Definition attr_id (c : Canvas) (a : Attr) : Exc Prim :=
  match a with
  | APrim PUndefined | APrim PNull => raise TypeError
  | APrim _ => ret PUndefined
  | APlain i _ => ret i
  | ALive k =>
      match c !! k with
      | Some o => ret (o_id o)
      | None => ret PUndefined
      end
  end.

(** [this.canvas.getObjects().find(text => text.id === key)]: the first
    canvas object whose [id] is strictly equal to [key], with its position
    ([===] on primitives is equality of the values). *)
Definition find_by_id (c : Canvas) (key : Prim) : option (nat * Obj) :=
  list_find (fun o => o_id o = key) c.

(** One of the two blocks of the loop body, for the attribute value [a]:
<<
    if (obj.measurementText) {
        const found = this.canvas.getObjects().find(text => text.id === obj.measurementText.id);
        if (found) { obj.measurementText = found; }
    }
>>
    The result is the value the attribute holds afterwards. *)
Definition relink (c : Canvas) (a : Attr) : Exc Attr :=
  if truthy a then
    do key <- attr_id c a;
    match find_by_id c key with
    | Some (k, _) => ret (ALive k)
    | None => ret a
    end
  else ret a.

(** [obj.type === 'rect' || obj.type === 'circle' || obj.type === 'triangle'] *)
Definition measurable (t : string) : bool :=
  bool_decide (t = "rect"%string) || bool_decide (t = "circle"%string)
  || bool_decide (t = "triangle"%string).

(** The body of the [forEach] callback for the object at position [i]; the
    object is updated in place, so the second block reads the canvas as the
    first one left it. *)
Definition visit (c : Canvas) (i : nat) : Exc Canvas :=
  match c !! i with
  | None => ret c
  | Some obj =>
      if measurable (o_type obj) then
        do m <- relink c (measurementText obj);
        let obj1 := set_measurementText m obj in
        let c1 := <[i := obj1]> c in
        do l <- relink c1 (lengthMeasurementText obj1);
        ret (<[i := set_lengthMeasurementText l obj1]> c1)
      else ret c
  end.

Fixpoint forEach (positions : list nat) (c : Canvas) : Exc Canvas :=
  match positions with
  | [] => ret c
  | i :: rest => do c' <- visit c i; forEach rest c'
  end.

Definition reestablishAssociations (c : Canvas) : Exc Canvas :=
  forEach (seq 0 (length c)) c.

(** ** The history ledger (script.js:43-129) *)

(** A DOM button, reduced to the property the module writes. *)
Record Button := mkButton { disabled : bool }.

(** [a.length] as a JavaScript number. *)
Definition len {A} (l : list A) : Z := Z.of_nat (length l).

(** [a[i]] for an integer [i]: [undefined] ([None]) out of range. *)
Definition js_index {A} (l : list A) (i : Z) : option A :=
  if i <? 0 then None else l !! Z.to_nat i.

(** [a.slice(0, e)]: a negative [e] counts from the end, and the bound is
    clamped to the array. *)
Definition slice0 {A} (l : list A) (e : Z) : list A :=
  let k := if e <? 0 then Z.max (len l + e) 0 else Z.min e (len l) in
  take (Z.to_nat k) l.

(** [a.push(x)] and [a.shift()] (the array that remains). *)
Definition push {A} (l : list A) (x : A) : list A := l ++ [x].
Definition shift {A} (l : list A) : list A := drop 1 l.

Section Ledger.

(** The snapshot codec belongs to the canvas library.  [toJSON c] stands
    for [JSON.stringify(canvas.toJSON(['measurementText',
    'lengthMeasurementText']))] on a canvas holding [c]; [loadFromJSON s]
    for the objects on the canvas when the callback of
    [canvas.loadFromJSON(s, callback)] runs. *)
Variable Snapshot : Type.
Variable toJSON : Canvas -> Snapshot.
Variable loadFromJSON : Snapshot -> Canvas.

Record HistoryModule := mkHistory {
  canvas : Canvas;
  history : list Snapshot;
  currentIndex : Z;
  limit : Z;
  undoBtn : option Button;
  redoBtn : option Button
}.

Definition set_canvas (c : Canvas) (h : HistoryModule) : HistoryModule :=
  mkHistory c (history h) (currentIndex h) (limit h) (undoBtn h) (redoBtn h).

Definition set_currentIndex (i : Z) (h : HistoryModule) : HistoryModule :=
  mkHistory (canvas h) (history h) i (limit h) (undoBtn h) (redoBtn h).

(** The guards of [annuler] (script.js:89) and [retablir] (script.js:100);
    the specification calls them canUndo() and canRedo(). *)
Definition canUndo (h : HistoryModule) : bool := 0 <? currentIndex h.
Definition canRedo (h : HistoryModule) : bool :=
  currentIndex h <? len (history h) - 1.

(** script.js:122-129.  A button that is missing from the page stays
    missing. *)
Definition updateButtons (h : HistoryModule) : HistoryModule :=
  mkHistory (canvas h) (history h) (currentIndex h) (limit h)
    ((fun _ => mkButton (currentIndex h <=? 0)) <$> undoBtn h)
    ((fun _ => mkButton (currentIndex h >=? len (history h) - 1)) <$> redoBtn h).

(** script.js:49-60; [limit = 50] when the argument is left out. *)
Definition constructor (c : Canvas) (lim : option Z)
    (undo redo : option Button) : HistoryModule :=
  updateButtons (mkHistory c [] (-1) (default 50 lim) undo redo).

(** script.js:65-83. *)
Definition enregistrerEtat (h : HistoryModule) : HistoryModule :=
  let hist1 :=
    if currentIndex h <? len (history h) - 1
    then slice0 (history h) (currentIndex h + 1)
    else history h in
  let hist2 := push hist1 (toJSON (canvas h)) in
  if limit h <? len hist2
  then updateButtons
         (mkHistory (canvas h) (shift hist2) (currentIndex h) (limit h)
            (undoBtn h) (redoBtn h))
  else updateButtons
         (mkHistory (canvas h) hist2 (currentIndex h + 1) (limit h)
            (undoBtn h) (redoBtn h)).

(** script.js:110-117.  The callback redraws (no effect on this state) and
    relinks the loaded objects; the state returned is the one after the
    callback has run (the program is single-threaded, and nothing else
    touches the ledger in between). *)
Definition loadState (h : HistoryModule) : Exc HistoryModule :=
  match js_index (history h) (currentIndex h) with
  | None => raise UndefinedSnapshot
  | Some state =>
      do c <- reestablishAssociations (loadFromJSON state);
      ret (set_canvas c h)
  end.

(** script.js:88-94. *)
Definition annuler (h : HistoryModule) : Exc HistoryModule :=
  if canUndo h then
    do h1 <- loadState (set_currentIndex (currentIndex h - 1) h);
    ret (updateButtons h1)
  else ret h.

(** script.js:99-105. *)
Definition retablir (h : HistoryModule) : Exc HistoryModule :=
  if canRedo h then
    do h1 <- loadState (set_currentIndex (currentIndex h + 1) h);
    ret (updateButtons h1)
  else ret h.

(** The ledger states the application can be in: the constructor, then any
    interleaving of scene edits by the mutation call sites (which replace
    the canvas content), [enregistrerEtat], [annuler] and [retablir]. *)
Inductive reachable : HistoryModule -> Prop :=
| reach_new c lim undo redo : reachable (constructor c lim undo redo)
| reach_edit h c : reachable h -> reachable (set_canvas c h)
| reach_record h : reachable h -> reachable (enregistrerEtat h)
| reach_undo h h' : reachable h -> annuler h = inr h' -> reachable h'
| reach_redo h h' : reachable h -> retablir h = inr h' -> reachable h'.

(** [cs] lists the scenes at the successive calls of [enregistrerEtat]:
    each call site edits the scene, then records it; nothing else touches
    the ledger in between. *)
Definition record_each (cs : list Canvas) (h : HistoryModule) : HistoryModule :=
  foldl (fun h c => enregistrerEtat (set_canvas c h)) h cs.

(** [annuler] called [n] times in a row. *)
Fixpoint repeat_annuler (n : nat) (h : HistoryModule) : Exc HistoryModule :=
  match n with
  | O => ret h
  | S n' => do h' <- annuler h; repeat_annuler n' h'
  end.

(** The invariant of the reachable states: the depth bound, the position
    of the cursor, and buttons that agree with the cursor. *)
Definition ledger_inv (h : HistoryModule) : Prop :=
  len (history h) <= Z.max (limit h) 0
  /\ ((history h = [] /\ currentIndex h = -1)
      \/ (0 <= currentIndex h < len (history h)))
  /\ updateButtons h = h.

End Ledger.

Arguments canvas {Snapshot} h.
Arguments history {Snapshot} h.
Arguments currentIndex {Snapshot} h.
Arguments limit {Snapshot} h.
Arguments undoBtn {Snapshot} h.
Arguments redoBtn {Snapshot} h.
Arguments mkHistory {Snapshot}.
Arguments set_canvas {Snapshot} c h.
Arguments set_currentIndex {Snapshot} i h.
Arguments canUndo {Snapshot} h.
Arguments canRedo {Snapshot} h.
Arguments updateButtons {Snapshot} h.
Arguments constructor {Snapshot} c lim undo redo.
Arguments enregistrerEtat {Snapshot} toJSON h.
Arguments loadState {Snapshot} loadFromJSON h.
Arguments annuler {Snapshot} loadFromJSON h.
Arguments retablir {Snapshot} loadFromJSON h.
Arguments reachable {Snapshot} toJSON loadFromJSON h.
Arguments record_each {Snapshot} toJSON cs h.
Arguments repeat_annuler {Snapshot} loadFromJSON n h.
Arguments ledger_inv {Snapshot} h.

(** ** The snapshot codec of the specification *)

(** Modelled from the spec: the snapshot format of the canvas library is
    missing from the source.  Section 3: a snapshot is a self-contained
    serialized scene that holds side-channel references by identifier.  A
    side-channel attribute inside a snapshot is a primitive (a bare
    identifier, or [undefined] when absent) or a plain nested object; it is
    never a live reference. *)
Inductive SAttr :=
| SPrim (p : Prim)
| SPlain (id : Prim) (text : string).

(** Modelled from the spec: an object inside a snapshot, with the
    properties of [Obj]. *)
Record SObj := mkSObj {
  s_type : string;
  s_id : Prim;
  s_text : string;
  s_measurementText : SAttr;
  s_lengthMeasurementText : SAttr
}.

Abbreviation PortableSnapshot := (list SObj).

(** Modelled from the spec: the serializer of the canvas library
    ([canvas.toJSON] with the allow-list of the two attribute names, then
    [JSON.stringify]) is missing from the source.  Section 4.1 and 6 of the
    specification: the snapshot keeps every object with its properties and,
    for a side-channel reference, the identifier of the referenced label,
    not the object. *)
Definition portable_attr (c : Canvas) (a : Attr) : SAttr :=
  match a with
  | APrim p => SPrim p
  | APlain i t => SPlain i t
  | ALive k =>
      match c !! k with
      | Some label => SPrim (o_id label)
      | None => SPrim PUndefined
      end
  end.

(** Modelled from the spec: [toPortable] of section 6, the serializer
    above applied to every object of the scene, in paint order. *)
Definition toPortable (c : Canvas) : PortableSnapshot :=
  (fun o => mkSObj (o_type o) (o_id o) (o_text o)
              (portable_attr c (measurementText o))
              (portable_attr c (lengthMeasurementText o))) <$> c.

(** Modelled from the spec: the loader of the canvas library
    ([canvas.loadFromJSON]) is missing from the source.  Section 4.1: every
    object is rebuilt, and a side-channel attribute is populated with the
    raw value of the snapshot, an identifier and not yet a reference. *)
Definition loaded_attr (a : SAttr) : Attr :=
  match a with
  | SPrim p => APrim p
  | SPlain i t => APlain i t
  end.

(** Modelled from the spec: [fromPortable] of section 6, the loader above
    applied to every object of the snapshot. *)
Definition fromPortable (s : PortableSnapshot) : Canvas :=
  (fun o => mkObj (s_type o) (s_id o) (s_text o)
              (loaded_attr (s_measurementText o))
              (loaded_attr (s_lengthMeasurementText o))) <$> s.

(** ** What the rebuilder computes, as total functions

    Used to state the results; [relink_relinked] and
    [reestablishAssociations_rebuilt] below connect them to the code. *)

(** The key [relink] looks up for a truthy attribute value. *)
Definition lookup_key (c : Canvas) (a : Attr) : Prim :=
  match a with
  | APrim _ => PUndefined
  | APlain i _ => i
  | ALive k => from_option o_id PUndefined (c !! k)
  end.

Definition relinked (c : Canvas) (a : Attr) : Attr :=
  if truthy a then
    match find_by_id c (lookup_key c a) with
    | Some (k, _) => ALive k
    | None => a
    end
  else a.

Definition rebuilt (c : Canvas) (o : Obj) : Obj :=
  if measurable (o_type o) then
    set_lengthMeasurementText (relinked c (lengthMeasurementText o))
      (set_measurementText (relinked c (measurementText o)) o)
  else o.

(** The two side-channel attributes, to state a property once for both. *)
Inductive Side := Measurement | LengthMeasurement.

Definition side_attr (sd : Side) (o : Obj) : Attr :=
  match sd with
  | Measurement => measurementText o
  | LengthMeasurement => lengthMeasurementText o
  end.

Definition s_side_attr (sd : Side) (o : SObj) : SAttr :=
  match sd with
  | Measurement => s_measurementText o
  | LengthMeasurement => s_lengthMeasurementText o
  end.

(** ** Sample scenes and ledgers *)

Definition rect_with_label : Canvas :=
  [ mkObj "rect" (PNum 1) EmptyString (ALive 1%nat) (APrim PUndefined);
    mkObj "text" (PNum 2) "L: 4.00 cm, H: 3.00 cm"
      (APrim PUndefined) (APrim PUndefined) ].

Definition circle_alone : Canvas :=
  [ mkObj "circle" (PNum 3) EmptyString (APrim PUndefined) (APrim PUndefined) ].

Definition triangle_alone : Canvas :=
  [ mkObj "triangle" (PNum 4) EmptyString (APrim PUndefined) (APrim PUndefined) ].

Definition stroke_alone : Canvas :=
  [ mkObj "path" (PNum 5) EmptyString (APrim PUndefined) (APrim PUndefined) ].


(** The ledger as [App.init] leaves it (script.js:1918 and 1972): built with
    the default limit, then the blank canvas recorded once. *)
Definition app_start : HistoryModule PortableSnapshot :=
  enregistrerEtat toPortable
    (constructor [] None (Some (mkButton false)) (Some (mkButton false))).

(** The ledger between the two, as [new HistoryModule(canvas)] returns it
    (script.js:1918): nothing recorded yet. *)
Definition fresh_ledger : HistoryModule PortableSnapshot :=
  constructor [] None (Some (mkButton false)) (Some (mkButton false)).

(** Then a rectangle with its label is on the canvas and recorded.  The
    identifiers are those of the data model of the specification; the
    drawing code of script.js assigns none. *)
Definition after_drawing : HistoryModule PortableSnapshot :=
  enregistrerEtat toPortable (set_canvas rect_with_label app_start).


(** A ledger of depth 2, never recorded. *)
Definition small_ledger : HistoryModule PortableSnapshot :=
  constructor [] (Some 2) None None.

(** ** The call sites of the ledger (script.js:341-800) *)

(** The canvas [loadState] leaves for the snapshot [s]: loaded, then
    rebuilt. *)
Definition reloaded {Snapshot : Type} (loadFromJSON : Snapshot -> Canvas)
    (s : Snapshot) : Canvas :=
  rebuilt (loadFromJSON s) <$> loadFromJSON s.

(** [canvas.add(o)]: the object is painted last. *)
Definition canvas_add (o : Obj) (c : Canvas) : Canvas := c ++ [o].

(** A canvas object as the constructors of the source build it: no
    constructor call in the source sets [id], [measurementText] or
    [lengthMeasurementText]. *)
Definition new_object (type text : string) : Obj :=
  mkObj type PUndefined text (APrim PUndefined) (APrim PUndefined).

(** [o.set({text: t, ...})], for the properties of [Obj]. *)
Definition set_text (t : string) (o : Obj) : Obj :=
  mkObj (o_type o) (o_id o) t (measurementText o) (lengthMeasurementText o).

(** Where the object at position [j] of a canvas of [n] objects is found
    once the object at position [k] has been moved to the end.  Positions
    outside the canvas are left alone. *)
Definition front_position (n k j : nat) : nat :=
  if decide (n <= k \/ n <= j)%nat then j
  else if decide (j < k)%nat then j
  else if decide (j = k) then (n - 1)%nat
  else (j - 1)%nat.

Definition renumber_attr (f : nat -> nat) (a : Attr) : Attr :=
  match a with
  | ALive k => ALive (f k)
  | _ => a
  end.

Definition renumber (f : nat -> nat) (o : Obj) : Obj :=
  mkObj (o_type o) (o_id o) (o_text o)
    (renumber_attr f (measurementText o))
    (renumber_attr f (lengthMeasurementText o)).

(** [canvas.bringToFront(o)] for the canvas object at position [k]: it is
    painted last.  A live reference is a position, so every reference is
    moved along with the object it points to. *)
Definition bringToFront (k : nat) (c : Canvas) : Canvas :=
  match c !! k with
  | None => c
  | Some o => renumber (front_position (length c) k) <$> (delete k c ++ [o])
  end.

(** script.js:633-659.  [formatted] is the text that the sizes of the shape
    give for its type (floating-point sizes printed with [toFixed(2)]);
    for any other type than the three below the text is empty.  The label
    is given as the value of a side-channel attribute: calling [.set] on
    anything but a canvas object throws. *)
Definition updateShapeMeasurements (formatted : string) (shape : nat)
    (measurementText : Attr) (c : Canvas) : Exc Canvas :=
  if truthy measurementText then
    let measurements :=
      match c !! shape with
      | Some s => if measurable (o_type s) then formatted else EmptyString
      | None => EmptyString
      end in
    match measurementText with
    | ALive p => ret (bringToFront p (alter (set_text measurements) p c))
    | _ => raise TypeError
    end
  else ret c.

(** script.js:686-698: the same for the length label of a fixed-height
    rectangle, whatever the type of the shape. *)
Definition updateFixedRectangleMeasurement (formatted : string)
    (measurementText : Attr) (c : Canvas) : Exc Canvas :=
  if truthy measurementText then
    match measurementText with
    | ALive p => ret (bringToFront p (alter (set_text formatted) p c))
    | _ => raise TypeError
    end
  else ret c.

(** The position of the object at [j] after the label [a] has been brought
    to the front. *)
Definition after_front (c : Canvas) (a : Attr) (j : nat) : nat :=
  match a with
  | ALive p => front_position (length c) p j
  | _ => j
  end.

Section CallSites.

Variable Snapshot : Type.
Variable toJSON : Canvas -> Snapshot.

(** script.js:605-626, for the shape at position [shape].  The only
    callers are [addCircle] and [addTriangle], whose shape has no
    [fixedHeightRectangle] property, so the early return is not taken.
    The listeners registered at the end hold no state of this model. *)
Definition addShapeMeasurements (formatted : string) (shape : nat)
    (h : HistoryModule Snapshot) : Exc (HistoryModule Snapshot) :=
  let label := length (canvas h) in
  let h1 := enregistrerEtat toJSON
              (set_canvas (canvas_add (new_object "text" EmptyString) (canvas h)) h) in
  do c2 <- updateShapeMeasurements formatted shape (ALive label) (canvas h1);
  let moved := front_position (length (canvas h1)) label in
  ret (set_canvas
         (alter (set_measurementText (ALive (moved label))) (moved shape) c2)
         h1).

(** script.js:559-577. *)
Definition addCircle (formatted : string) (h : HistoryModule Snapshot)
    : Exc (HistoryModule Snapshot) :=
  let shape := length (canvas h) in
  let h1 := enregistrerEtat toJSON
              (set_canvas (canvas_add (new_object "circle" EmptyString) (canvas h)) h) in
  addShapeMeasurements formatted shape h1.

(** script.js:581-599. *)
Definition addTriangle (formatted : string) (h : HistoryModule Snapshot)
    : Exc (HistoryModule Snapshot) :=
  let shape := length (canvas h) in
  let h1 := enregistrerEtat toJSON
              (set_canvas (canvas_add (new_object "triangle" EmptyString) (canvas h)) h) in
  addShapeMeasurements formatted shape h1.

(** The state of [ShapesModule] that the mouse handlers use; the canvas is
    the one of the ledger.  [tempShape] is the position of the shape being
    drawn. *)
Record ShapesModule := mkShapes {
  historyModule : HistoryModule Snapshot;
  drawingMode : option string;
  currentlyDrawing : bool;
  tempShape : option nat
}.

(** [this.drawingMode] is truthy: neither [null] nor the empty string. *)
Definition mode_set (m : option string) : bool :=
  match m with
  | Some s => negb (bool_decide (s = EmptyString))
  | None => false
  end.

(** script.js:412-415. *)
Definition setDrawingMode (mode : string) (s : ShapesModule) : ShapesModule :=
  mkShapes (historyModule s) (Some mode) (currentlyDrawing s) (tempShape s).

(** script.js:430-500. *)
Definition onMouseDown (s : ShapesModule) : ShapesModule :=
  if mode_set (drawingMode s) then
    let h := historyModule s in
    let n := length (canvas h) in
    if bool_decide (drawingMode s = Some "rectangle"%string) then
      let c := canvas_add (new_object "text" EmptyString)
                 (canvas_add (new_object "rect" EmptyString) (canvas h)) in
      mkShapes (set_canvas (alter (set_measurementText (ALive (S n))) n c) h)
        (drawingMode s) true (Some n)
    else if bool_decide (drawingMode s = Some "rectangle-fixed-height"%string) then
      let c := canvas_add (new_object "text" EmptyString)
                 (canvas_add (new_object "rect" EmptyString) (canvas h)) in
      mkShapes (set_canvas (alter (set_lengthMeasurementText (ALive (S n))) n c) h)
        (drawingMode s) true (Some n)
    else mkShapes h (drawingMode s) true (tempShape s)
  else s.

(** script.js:506-522; [formatted] as for [updateShapeMeasurements]. *)
Definition onMouseMove (formatted : string) (s : ShapesModule) : Exc ShapesModule :=
  match currentlyDrawing s, tempShape s with
  | true, Some t =>
      let h := historyModule s in
      let c := canvas h in
      if bool_decide (drawingMode s = Some "rectangle"%string) then
        let label := from_option measurementText (APrim PUndefined) (c !! t) in
        do c' <- updateShapeMeasurements formatted t label c;
        ret (mkShapes (set_canvas c' h) (drawingMode s) true
               (Some (after_front c label t)))
      else if bool_decide (drawingMode s = Some "rectangle-fixed-height"%string) then
        let label := from_option lengthMeasurementText (APrim PUndefined) (c !! t) in
        do c' <- updateFixedRectangleMeasurement formatted label c;
        ret (mkShapes (set_canvas c' h) (drawingMode s) true
               (Some (after_front c label t)))
      else ret s
  | _, _ => ret s
  end.

(** script.js:528-543. *)
Definition onMouseUp (s : ShapesModule) : ShapesModule :=
  if currentlyDrawing s then
    match tempShape s with
    | Some _ => mkShapes (enregistrerEtat toJSON (historyModule s)) None false None
    | None => mkShapes (historyModule s) None false None
    end
  else s.

(** The mouse moves of one gesture, each with the text its sizes give. *)
Fixpoint mouse_moves (texts : list string) (s : ShapesModule) : Exc ShapesModule :=
  match texts with
  | [] => ret s
  | t :: rest => do s' <- onMouseMove t s; mouse_moves rest s'
  end.

(** One gesture: button down, moves, button up. *)
Definition gesture (texts : list string) (s : ShapesModule) : Exc ShapesModule :=
  do s' <- mouse_moves texts (onMouseDown s);
  ret (onMouseUp s').

End CallSites.

Arguments addShapeMeasurements {Snapshot} toJSON formatted shape h.
Arguments addCircle {Snapshot} toJSON formatted h.
Arguments addTriangle {Snapshot} toJSON formatted h.
Arguments mkShapes {Snapshot}.
Arguments historyModule {Snapshot} s.
Arguments drawingMode {Snapshot} s.
Arguments currentlyDrawing {Snapshot} s.
Arguments tempShape {Snapshot} s.
Arguments setDrawingMode {Snapshot} mode s.
Arguments onMouseDown {Snapshot} s.
Arguments onMouseMove {Snapshot} formatted s.
Arguments onMouseUp {Snapshot} toJSON s.
Arguments mouse_moves {Snapshot} texts s.
Arguments gesture {Snapshot} toJSON texts s.

(** ** The table (script.js:723-795) *)

(** The geometry handed to [new fabric.Rect] and [new fabric.Textbox]. *)
Record Box := mkBox { b_left : Z; b_top : Z; b_width : Z; b_height : Z }.

(** What [addTable] adds to the group, in the order of the calls of
    [addWithUpdate]. *)
Inductive TableChild :=
| CellRect (b : Box)
| CellText (b : Box).

Definition cellWidth : Z := 60.
Definition cellHeight : Z := 30.

Definition cell_rect (row col : Z) : TableChild :=
  CellRect (mkBox (col * cellWidth) (row * cellHeight) cellWidth cellHeight).

Definition cell_text (row col : Z) : TableChild :=
  CellText (mkBox (col * cellWidth + 5) (row * cellHeight + 5)
              (cellWidth - 10) (cellHeight - 10)).

(** The two nested loops of script.js:758-787, [row] from 0 while
    [row < rows] and [col] from 0 while [col < cols]. *)
Definition table_children (rows cols : Z) : list TableChild :=
  row ← seqZ 0 rows; col ← seqZ 0 cols; [cell_rect row col; cell_text row col].

(** [addTable(rows, cols)]: the children of the group, and the ledger
    after the group has been added to the canvas and recorded. *)
Definition addTable {Snapshot : Type} (toJSON : Canvas -> Snapshot)
    (rows cols : Z) (h : HistoryModule Snapshot)
    : list TableChild * HistoryModule Snapshot :=
  (table_children rows cols,
   enregistrerEtat toJSON
     (set_canvas (canvas_add (new_object "group" EmptyString) (canvas h)) h)).

(** The click handler of script.js:725-735.  [rows] and [cols] are the
    results of [parseInt(prompt(...), 10)], [None] for [NaN]; without a
    table the handler shows an alert and changes nothing. *)
Definition addTableClicked {Snapshot : Type} (toJSON : Canvas -> Snapshot)
    (rows cols : option Z) (h : HistoryModule Snapshot)
    : option (list TableChild) * HistoryModule Snapshot :=
  match rows, cols with
  | Some r, Some c =>
      if (0 <? r) && (0 <? c)
      then (Some (fst (addTable toJSON r c h)), snd (addTable toJSON r c h))
      else (None, h)
  | _, _ => (None, h)
  end.

(** The boxes [a] and [b] share no area. *)
Definition disjoint_boxes (a b : Box) : Prop :=
  b_left a + b_width a <= b_left b \/ b_left b + b_width b <= b_left a
  \/ b_top a + b_height a <= b_top b \/ b_top b + b_height b <= b_top a.

(** The box [a] lies inside the box [b]. *)
Definition inside_box (a b : Box) : Prop :=
  b_left b <= b_left a /\ b_left a + b_width a <= b_left b + b_width b
  /\ b_top b <= b_top a /\ b_top a + b_height a <= b_top b + b_height b.

(** ** The calculator (script.js:1070-1083) *)

Section Calculator.

(** [evaluate e] stands for [Function('"use strict";return (' + e + ')')()]
    written into the display: the text of the value, or [None] when the
    call throws. *)
Variable evaluate : string -> option string.

Definition handleCalcButton (value display : string) : string :=
  if bool_decide (value = "C"%string) then EmptyString
  else if bool_decide (value = "="%string) then
    match evaluate display with
    | Some v => v
    | None => "Erreur"%string
    end
  else (display ++ value)%string.

(** The buttons pressed one after the other. *)
Definition press_all (values : list string) (display : string) : string :=
  foldl (fun d v => handleCalcButton v d) display values.

End Calculator.

(** A button that only types: neither [C] nor [=]. *)
Definition typing_key (value : string) : Prop :=
  value <> "C"%string /\ value <> "="%string.

(** * Properties *)

(** ** The rebuilder *)

Section Rebuilder.

Implicit Types (c : Canvas) (a : Attr) (o : Obj).

Lemma attr_id_truthy c a :
  truthy a = true -> attr_id c a = inr (lookup_key c a).
Proof.
  destruct a as [[ | | n | s] | i t | k]; simpl; try discriminate; try reflexivity.
  intros _. destruct (c !! k); reflexivity.
Qed.

Lemma relink_relinked c a : relink c a = inr (relinked c a).
Proof.
  unfold relink, relinked.
  destruct (truthy a) eqn:Ht; [ | reflexivity ].
  rewrite (attr_id_truthy _ _ Ht). simpl.
  destruct (find_by_id c (lookup_key c a)) as [[k o] | ]; reflexivity.
Qed.

(** The lookups read the canvas only through the [id]s of its objects,
    which the loop never writes. *)
Lemma lookup_key_ids c c' a :
  o_id <$> c = o_id <$> c' -> lookup_key c a = lookup_key c' a.
Proof.
  intros Hids. destruct a as [p | i t | k]; simpl; try reflexivity.
  assert (H : (o_id <$> c) !! k = (o_id <$> c') !! k) by (rewrite Hids; reflexivity).
  rewrite !list_lookup_fmap in H.
  destruct (c !! k), (c' !! k); simpl in *; congruence.
Qed.

Lemma find_by_id_ids c c' key :
  o_id <$> c = o_id <$> c' ->
  fst <$> find_by_id c key = fst <$> find_by_id c' key.
Proof.
  intros Hids. unfold find_by_id.
  assert (H : forall l : Canvas,
    fst <$> list_find (fun o => o_id o = key) l
    = fst <$> list_find (fun i => i = key) (o_id <$> l)).
  { intros l. rewrite list_find_fmap.
    destruct (list_find _ l) as [[k o] | ]; reflexivity. }
  rewrite !H, Hids. reflexivity.
Qed.

Lemma relinked_ids c c' a :
  o_id <$> c = o_id <$> c' -> relinked c a = relinked c' a.
Proof.
  intros Hids. unfold relinked.
  rewrite (lookup_key_ids _ _ _ Hids).
  pose proof (find_by_id_ids _ _ (lookup_key c' a) Hids) as H.
  destruct (find_by_id c _) as [[k o] | ], (find_by_id c' _) as [[k' o'] | ];
    simpl in H; try discriminate; [ | reflexivity ].
  injection H as ->. reflexivity.
Qed.

Lemma rebuilt_id c o : o_id (rebuilt c o) = o_id o.
Proof. unfold rebuilt. destruct (measurable _); reflexivity. Qed.

Lemma rebuilt_type c o : o_type (rebuilt c o) = o_type o.
Proof. unfold rebuilt. destruct (measurable _); reflexivity. Qed.

Lemma rebuilt_text c o : o_text (rebuilt c o) = o_text o.
Proof. unfold rebuilt. destruct (measurable _); reflexivity. Qed.

Lemma insert_ids c i o o' :
  c !! i = Some o -> o_id o' = o_id o -> o_id <$> <[i := o']> c = o_id <$> c.
Proof.
  intros Hi Hid. rewrite list_fmap_insert, Hid.
  apply list_insert_id. rewrite list_lookup_fmap, Hi. reflexivity.
Qed.

(** One turn of the loop writes [rebuilt c0 o] at the visited position,
    whatever the earlier turns did to the other objects. *)
Lemma visit_rebuilt c0 c i o :
  o_id <$> c = o_id <$> c0 ->
  c !! i = Some o ->
  visit c i = inr (<[i := rebuilt c0 o]> c).
Proof.
  intros Hids Hi. unfold visit, rebuilt. rewrite Hi.
  destruct (measurable (o_type o)).
  - rewrite relink_relinked. simpl.
    rewrite relink_relinked. simpl.
    rewrite list_insert_insert_eq.
    rewrite (relinked_ids (<[i := _]> c) c0).
    + rewrite (relinked_ids c c0) by exact Hids. reflexivity.
    + rewrite <- Hids. apply insert_ids with o; [ exact Hi | reflexivity ].
  - rewrite list_insert_id by exact Hi. reflexivity.
Qed.

Lemma forEach_rebuilt c0 n : forall (s : nat) c,
  (s + n = length c0)%nat ->
  length c = length c0 ->
  (forall j : nat,
      c !! j = if decide (j < s)%nat then rebuilt c0 <$> c0 !! j else c0 !! j) ->
  forEach (seq s n) c = inr (rebuilt c0 <$> c0).
Proof.
  induction n as [ | n IH]; intros s c Hs Hlen Hc; simpl.
  - f_equal. apply list_eq. intros j. rewrite Hc, list_lookup_fmap.
    destruct (decide (j < s)%nat); [ reflexivity | ].
    rewrite (lookup_ge_None_2 c0 j) by lia. reflexivity.
  - assert (Hids : o_id <$> c = o_id <$> c0).
    { apply list_eq. intros j. rewrite !list_lookup_fmap, Hc.
      destruct (decide (j < s)%nat); [ | reflexivity ].
      destruct (c0 !! j); simpl; [ | reflexivity ].
      rewrite rebuilt_id. reflexivity. }
    destruct (lookup_lt_is_Some_2 c0 s) as [o Ho]; [ lia | ].
    assert (Hcs : c !! s = Some o).
    { rewrite Hc. destruct (decide (s < s)%nat); [ lia | exact Ho ]. }
    rewrite (visit_rebuilt c0 c s o Hids Hcs). simpl.
    apply IH.
    + lia.
    + rewrite length_insert. exact Hlen.
    + intros j. destruct (decide (j = s)) as [-> | Hne].
      * rewrite list_lookup_insert_eq by lia.
        destruct (decide (s < S s)%nat); [ | lia ].
        rewrite Ho. reflexivity.
      * rewrite list_lookup_insert_ne by lia.
        rewrite Hc.
        destruct (decide (j < s)%nat), (decide (j < S s)%nat);
          try reflexivity; lia.
Qed.

(** The rebuilder never throws: it returns the canvas with every object
    rebuilt against the loaded [id]s. *)
Theorem reestablishAssociations_rebuilt c :
  reestablishAssociations c = inr (rebuilt c <$> c).
Proof.
  unfold reestablishAssociations.
  apply forEach_rebuilt; [ lia | reflexivity | ].
  intros j. destruct (decide (j < 0)%nat); [ lia | reflexivity ].
Qed.

End Rebuilder.

(** ** The ledger, for any snapshot codec *)

Section LedgerFacts.

Context {Snapshot : Type}.
Variable toJSON : Canvas -> Snapshot.
Variable loadFromJSON : Snapshot -> Canvas.

Implicit Types (h : HistoryModule Snapshot) (c : Canvas).


Lemma len_nonneg {A} (l : list A) : 0 <= len l.
Proof. unfold len. lia. Qed.

Lemma len_nil_inv {A} (l : list A) : len l = 0 -> l = [].
Proof. destruct l; [ reflexivity | unfold len; simpl; lia ]. Qed.

Lemma js_index_in_range {A} (l : list A) (i : Z) :
  0 <= i < len l -> exists x, js_index l i = Some x.
Proof.
  intros Hi. unfold js_index.
  destruct (i <? 0) eqn:E; [ lia | ].
  destruct (lookup_lt_is_Some_2 l (Z.to_nat i)) as [x Hx].
  - unfold len in Hi. lia.
  - exists x. exact Hx.
Qed.

Lemma js_index_nil {A} (i : Z) : js_index (@nil A) i = None.
Proof. unfold js_index. destruct (i <? 0); reflexivity. Qed.

Lemma updateButtons_idem h : updateButtons (updateButtons h) = updateButtons h.
Proof.
  destruct h as [c hist idx lim ub rb]. unfold updateButtons. simpl.
  destruct ub, rb; reflexivity.
Qed.

(** *** [loadState], [annuler] and [retablir] step by step *)

Lemma loadState_in_range h :
  0 <= currentIndex h < len (history h) ->
  exists c, loadState loadFromJSON h = inr (set_canvas c h).
Proof.
  intros Hi. unfold loadState.
  destruct (js_index_in_range _ _ Hi) as [st ->].
  rewrite reestablishAssociations_rebuilt. simpl. eauto.
Qed.

Lemma annuler_step h :
  0 < currentIndex h < len (history h) + 1 ->
  exists c,
    annuler loadFromJSON h = inr (updateButtons
                    (set_canvas c (set_currentIndex (currentIndex h - 1) h))).
Proof.
  intros Hi. unfold annuler, canUndo.
  destruct (0 <? currentIndex h) eqn:E; [ | lia ].
  destruct (loadState_in_range (set_currentIndex (currentIndex h - 1) h))
    as [c Hc]; [ simpl; lia | ].
  rewrite Hc. simpl. eauto.
Qed.

Lemma retablir_step h :
  -1 <= currentIndex h < len (history h) - 1 ->
  exists c,
    retablir loadFromJSON h = inr (updateButtons
                    (set_canvas c (set_currentIndex (currentIndex h + 1) h))).
Proof.
  intros Hi. unfold retablir, canRedo.
  destruct (currentIndex h <? len (history h) - 1) eqn:E; [ | lia ].
  destruct (loadState_in_range (set_currentIndex (currentIndex h + 1) h))
    as [c Hc]; [ simpl; lia | ].
  rewrite Hc. simpl. eauto.
Qed.

Lemma annuler_blocked h : currentIndex h <= 0 -> annuler loadFromJSON h = inr h.
Proof.
  intros Hi. unfold annuler, canUndo.
  destruct (0 <? currentIndex h) eqn:E; [ lia | reflexivity ].
Qed.

Lemma retablir_blocked h :
  len (history h) - 1 <= currentIndex h -> retablir loadFromJSON h = inr h.
Proof.
  intros Hi. unfold retablir, canRedo.
  destruct (currentIndex h <? len (history h) - 1) eqn:E; [ lia | reflexivity ].
Qed.

(** Whatever the state, a call that returns has not touched the stored
    sequence or the limit. *)
Lemma loadState_frame h h' :
  loadState loadFromJSON h = inr h' ->
  history h' = history h /\ currentIndex h' = currentIndex h
  /\ limit h' = limit h /\ undoBtn h' = undoBtn h /\ redoBtn h' = redoBtn h.
Proof.
  unfold loadState. destruct (js_index _ _); [ | discriminate ].
  rewrite reestablishAssociations_rebuilt. simpl.
  intros [= <-]. simpl. auto.
Qed.

Lemma annuler_frame h h' :
  annuler loadFromJSON h = inr h' -> history h' = history h /\ limit h' = limit h.
Proof.
  unfold annuler. destruct (canUndo h).
  - destruct (loadState _ _) as [e | h1] eqn:E; simpl; [ discriminate | ].
    intros [= <-]. apply loadState_frame in E. simpl in *. tauto.
  - intros [= <-]. auto.
Qed.

Lemma retablir_frame h h' :
  retablir loadFromJSON h = inr h' -> history h' = history h /\ limit h' = limit h.
Proof.
  unfold retablir. destruct (canRedo h).
  - destruct (loadState _ _) as [e | h1] eqn:E; simpl; [ discriminate | ].
    intros [= <-]. apply loadState_frame in E. simpl in *. tauto.
  - intros [= <-]. auto.
Qed.

(** *** [enregistrerEtat] *)

(** The part of the sequence that survives a recording, before the new
    snapshot is pushed: everything up to the cursor. *)
Lemma kept_prefix h :
  ledger_inv h ->
  (if currentIndex h <? len (history h) - 1
   then slice0 (history h) (currentIndex h + 1)
   else history h)
  = take (Z.to_nat (currentIndex h + 1)) (history h).
Proof.
  intros (Hbound & Hcur & _).
  destruct (currentIndex h <? len (history h) - 1) eqn:E.
  - unfold slice0.
    destruct (currentIndex h + 1 <? 0) eqn:E'; [ lia | ].
    f_equal. lia.
  - rewrite take_ge; [ reflexivity | ].
    unfold len in *. destruct Hcur as [[-> _] | ?]; simpl; lia.
Qed.

Lemma record_shape h :
  ledger_inv h -> 0 < limit h ->
  let kept := take (Z.to_nat (currentIndex h + 1)) (history h) in
  limit (enregistrerEtat toJSON h) = limit h
  /\ canvas (enregistrerEtat toJSON h) = canvas h
  /\ currentIndex (enregistrerEtat toJSON h) = Z.min (currentIndex h + 1) (limit h - 1)
  /\ history (enregistrerEtat toJSON h)
     = (if limit h <? currentIndex h + 2 then drop 1 kept else kept)
         ++ [toJSON (canvas h)]
  /\ len (history (enregistrerEtat toJSON h)) = currentIndex (enregistrerEtat toJSON h) + 1.
Proof.
  intros Hinv Hlim kept.
  assert (Hk : len kept = currentIndex h + 1).
  { destruct Hinv as (_ & Hcur & _). unfold kept, len in *.
    rewrite length_take. destruct Hcur as [[-> ->] | ?]; simpl; lia. }
  assert (Hb : currentIndex h + 1 <= limit h).
  { destruct Hinv as (Hbound & Hcur & _). lia. }
  unfold enregistrerEtat. rewrite (kept_prefix h Hinv). fold kept.
  assert (Hp : len (push kept (toJSON (canvas h))) = currentIndex h + 2).
  { unfold push, len in *. rewrite length_app. simpl. lia. }
  rewrite Hp.
  destruct (limit h <? currentIndex h + 2) eqn:E; simpl.
  - split; [ reflexivity | ]. split; [ reflexivity | ].
    split; [ lia | ].
    assert (Hd : shift (push kept (toJSON (canvas h)))
                 = drop 1 kept ++ [toJSON (canvas h)]).
    { unfold shift, push. rewrite drop_app.
      replace (1 - length kept)%nat with 0%nat by (unfold len in Hk; lia).
      reflexivity. }
    rewrite Hd. split; [ reflexivity | ].
    unfold len in *. rewrite length_app, length_drop. simpl. lia.
  - split; [ reflexivity | ]. split; [ reflexivity | ].
    split; [ lia | ]. split; [ reflexivity | ]. lia.
Qed.

Lemma record_nonpositive_limit h :
  ledger_inv h -> limit h <= 0 ->
  history (enregistrerEtat toJSON h) = [] /\ currentIndex (enregistrerEtat toJSON h) = -1
  /\ limit (enregistrerEtat toJSON h) = limit h.
Proof.
  intros (Hbound & Hcur & _) Hlim.
  assert (Hnil : history h = []).
  { apply len_nil_inv. pose proof (len_nonneg (history h)). lia. }
  destruct Hcur as [[_ Hi] | Hi]; [ | rewrite Hnil in Hi; unfold len in Hi; simpl in Hi; lia ].
  unfold enregistrerEtat. rewrite Hnil, Hi. simpl.
  unfold push, len. simpl. change (Z.of_nat 1) with 1.
  destruct (limit h <? 1) eqn:E; [ | lia ].
  simpl. auto.
Qed.

(** *** The invariant *)

Lemma constructor_inv c lim ub rb :
  ledger_inv (constructor (Snapshot := Snapshot) c lim ub rb).
Proof.
  unfold ledger_inv, constructor. rewrite updateButtons_idem. simpl.
  unfold len. simpl. split; [ lia | ]. split; [ left; auto | reflexivity ].
Qed.

Lemma set_canvas_inv h c : ledger_inv h -> ledger_inv (set_canvas c h).
Proof.
  intros (Hbound & Hcur & Hbtn). unfold ledger_inv. simpl.
  split; [ exact Hbound | ]. split; [ exact Hcur | ].
  destruct h as [c0 hist idx lim ub rb]. unfold updateButtons in *. simpl in *.
  injection Hbtn as Hu Hr. rewrite Hu, Hr. reflexivity.
Qed.

Lemma record_buttons h : updateButtons (enregistrerEtat toJSON h) = enregistrerEtat toJSON h.
Proof.
  unfold enregistrerEtat.
  destruct (limit h <? _); apply updateButtons_idem.
Qed.

Lemma record_inv h : ledger_inv h -> ledger_inv (enregistrerEtat toJSON h).
Proof.
  intros Hinv. unfold ledger_inv.
  destruct (Z_lt_le_dec 0 (limit h)) as [Hlim | Hlim].
  - destruct (record_shape h Hinv Hlim) as (Hl & _ & Hi & _ & Hn).
    pose proof (len_nonneg (history (enregistrerEtat toJSON h))).
    assert (-1 <= currentIndex h).
    { destruct Hinv as (_ & [[_ ->] | ?] & _); lia. }
    split; [ | split; [ right; lia | apply record_buttons ] ].
    rewrite Hl. lia.
  - destruct (record_nonpositive_limit h Hinv Hlim) as (Hh & Hi & Hl).
    split; [ | split; [ left; auto | apply record_buttons ] ].
    rewrite Hh, Hl. unfold len. simpl. lia.
Qed.

(** After a recording the cursor is on the newest snapshot, whatever the
    limit: redo is unavailable. *)
Lemma record_disables_redo h :
  ledger_inv h ->
  canRedo (enregistrerEtat toJSON h) = false
  /\ retablir loadFromJSON (enregistrerEtat toJSON h)
     = inr (enregistrerEtat toJSON h).
Proof.
  intros Hinv.
  assert (Htip : len (history (enregistrerEtat toJSON h)) - 1
                 <= currentIndex (enregistrerEtat toJSON h)).
  { destruct (Z_lt_le_dec 0 (limit h)) as [Hlim | Hlim].
    - destruct (record_shape h Hinv Hlim) as (_ & _ & _ & _ & Hn). lia.
    - destruct (record_nonpositive_limit h Hinv Hlim) as (Hh & Hi & _).
      rewrite Hh, Hi. unfold len. simpl. lia. }
  split; [ unfold canRedo; lia | apply retablir_blocked, Htip ].
Qed.

Lemma moved_cursor_inv h c i :
  ledger_inv h -> 0 <= i < len (history h) ->
  ledger_inv (updateButtons (set_canvas c (set_currentIndex i h))).
Proof.
  intros (Hbound & _ & _) Hi. unfold ledger_inv.
  rewrite updateButtons_idem. simpl.
  split; [ exact Hbound | ]. split; [ right; exact Hi | reflexivity ].
Qed.

(** In a state that satisfies the invariant [annuler] returns, and moves
    the cursor one step back if its guard lets it. *)
Lemma annuler_inv h :
  ledger_inv h ->
  exists h', annuler loadFromJSON h = inr h' /\ ledger_inv h'
    /\ history h' = history h /\ limit h' = limit h
    /\ currentIndex h' = (if canUndo h then currentIndex h - 1 else currentIndex h).
Proof.
  intros Hinv. unfold canUndo.
  destruct (0 <? currentIndex h) eqn:E.
  - assert (Hi : 0 < currentIndex h < len (history h)).
    { destruct Hinv as (_ & [[_ ?] | ?] & _); lia. }
    destruct (annuler_step h) as [c Hc]; [ lia | ].
    eexists. split; [ exact Hc | ].
    split; [ apply moved_cursor_inv; [ exact Hinv | lia ] | ].
    simpl. auto.
  - exists h. split; [ apply annuler_blocked; lia | auto ].
Qed.

Lemma retablir_inv h :
  ledger_inv h ->
  exists h', retablir loadFromJSON h = inr h' /\ ledger_inv h'
    /\ history h' = history h /\ limit h' = limit h
    /\ currentIndex h' = (if canRedo h then currentIndex h + 1 else currentIndex h).
Proof.
  intros Hinv. unfold canRedo.
  destruct (currentIndex h <? len (history h) - 1) eqn:E.
  - assert (Hi : -1 <= currentIndex h).
    { destruct Hinv as (_ & [[_ ?] | ?] & _); lia. }
    destruct (retablir_step h) as [c Hc]; [ lia | ].
    eexists. split; [ exact Hc | ].
    split; [ apply moved_cursor_inv; [ exact Hinv | lia ] | ].
    simpl. auto.
  - exists h. split; [ apply retablir_blocked; lia | auto ].
Qed.

Lemma reachable_inv h : reachable toJSON loadFromJSON h -> ledger_inv h.
Proof.
  induction 1 as [c lim ub rb | h c _ IH | h _ IH | h h' _ IH Hu | h h' _ IH Hr].
  - apply constructor_inv.
  - apply set_canvas_inv, IH.
  - apply record_inv, IH.
  - destruct (annuler_inv h IH) as (h'' & Hu' & Hinv & _).
    rewrite Hu in Hu'. injection Hu' as ->. exact Hinv.
  - destruct (retablir_inv h IH) as (h'' & Hr' & Hinv & _).
    rewrite Hr in Hr'. injection Hr' as ->. exact Hinv.
Qed.

Lemma inv_redoBtn h b :
  ledger_inv h -> redoBtn h = Some b ->
  disabled b = (currentIndex h >=? len (history h) - 1).
Proof.
  intros (_ & _ & Hbtn) Hb.
  destruct h as [c hist idx lim ub rb]. unfold updateButtons in Hbtn.
  simpl in *. injection Hbtn as _ Hrb. subst rb. simpl in Hrb.
  injection Hrb as Hd. rewrite <- Hd. reflexivity.
Qed.

Lemma inv_undoBtn h b :
  ledger_inv h -> undoBtn h = Some b ->
  disabled b = (currentIndex h <=? 0).
Proof.
  intros (_ & _ & Hbtn) Hb.
  destruct h as [c hist idx lim ub rb]. unfold updateButtons in Hbtn.
  simpl in *. injection Hbtn as Hub _. subst ub. simpl in Hub.
  injection Hub as Hd. rewrite <- Hd. reflexivity.
Qed.

(** *** The claims about the ledger alone *)

(** C5. In every state reached from the constructor by scene edits,
    recordings, undos and redos: a non-empty snapshot sequence has its
    cursor inside it ([0 <= cursor < length]) and an empty one has the
    cursor at -1; the cursor is at [length - 1] exactly when redo is
    unavailable (the guard of [retablir] fails, the call changes nothing,
    and the redo button, if the page has one, is disabled), whether the
    sequence is empty or not; undo is unavailable (the same for [annuler]
    and the undo button) exactly when the cursor is at 0 or below, which
    for a non-empty sequence means exactly when it is at 0. *)
Theorem cursor_invariant h :
  reachable toJSON loadFromJSON h ->
  (history h <> [] -> 0 <= currentIndex h < len (history h))
  /\ (history h = [] -> currentIndex h = -1)
  /\ (currentIndex h = len (history h) - 1 <-> canRedo h = false)
  /\ (currentIndex h = len (history h) - 1 <-> retablir loadFromJSON h = inr h)
  /\ (forall b, redoBtn h = Some b ->
        (currentIndex h = len (history h) - 1 <-> disabled b = true))
  /\ (currentIndex h <= 0 <-> canUndo h = false)
  /\ (currentIndex h <= 0 <-> annuler loadFromJSON h = inr h)
  /\ (forall b, undoBtn h = Some b ->
        (currentIndex h <= 0 <-> disabled b = true))
  /\ (history h <> [] ->
      (currentIndex h = 0 <-> canUndo h = false)
      /\ (currentIndex h = 0 <-> annuler loadFromJSON h = inr h)
      /\ (forall b, undoBtn h = Some b ->
            (currentIndex h = 0 <-> disabled b = true))).
Proof.
  intros Hr. pose proof (reachable_inv h Hr) as Hinv.
  assert (Hcur : (history h = [] /\ currentIndex h = -1)
                 \/ 0 <= currentIndex h < len (history h))
    by (destruct Hinv as (_ & ? & _); assumption).
  assert (Hin : history h <> [] -> 0 <= currentIndex h < len (history h)).
  { intros Hne. destruct Hcur as [[? _] | ?]; [ contradiction | assumption ]. }
  assert (Hout : history h = [] -> currentIndex h = -1).
  { intros Hnil. destruct Hcur as [[_ ?] | Hi]; [ assumption | ].
    rewrite Hnil in Hi. unfold len in Hi. simpl in Hi. lia. }
  assert (Htip : currentIndex h <= len (history h) - 1).
  { destruct Hcur as [[-> ->] | ?]; [ unfold len; simpl | ]; lia. }
  assert (Hredo : currentIndex h = len (history h) - 1
                  <-> retablir loadFromJSON h = inr h).
  { split; intros H.
    - apply retablir_blocked. lia.
    - destruct (retablir_inv h Hinv) as (h' & Hh' & _ & _ & _ & Hc).
      rewrite H in Hh'. injection Hh' as <-.
      unfold canRedo in Hc.
      destruct (currentIndex h <? len (history h) - 1) eqn:E; lia. }
  assert (Hundo : currentIndex h <= 0 <-> annuler loadFromJSON h = inr h).
  { split; intros H.
    - apply annuler_blocked. exact H.
    - destruct (annuler_inv h Hinv) as (h' & Hh' & _ & _ & _ & Hc).
      rewrite H in Hh'. injection Hh' as <-.
      unfold canUndo in Hc.
      destruct (0 <? currentIndex h) eqn:E; lia. }
  split; [ exact Hin | ].
  split; [ exact Hout | ].
  split; [ unfold canRedo; lia | ].
  split; [ exact Hredo | ].
  split.
  { intros b Hb. rewrite (inv_redoBtn h b Hinv Hb). lia. }
  split; [ unfold canUndo; lia | ].
  split; [ exact Hundo | ].
  split.
  { intros b Hb. rewrite (inv_undoBtn h b Hinv Hb). lia. }
  intros Hne. pose proof (Hin Hne) as Hi.
  split; [ unfold canUndo; lia | ].
  split.
  { rewrite <- Hundo. lia. }
  intros b Hb. rewrite (inv_undoBtn h b Hinv Hb). lia.
Qed.

(** C6. In any ledger state, [annuler] with the cursor at 0 and
    [retablir] with the cursor at [length - 1] return the state as it was:
    same snapshot sequence, same cursor, same canvas, same buttons. *)
Theorem boundary_calls_change_nothing h :
  (currentIndex h = 0 -> annuler loadFromJSON h = inr h)
  /\ (currentIndex h = len (history h) - 1 -> retablir loadFromJSON h = inr h).
Proof.
  split; intros Hi.
  - apply annuler_blocked. lia.
  - apply retablir_blocked. lia.
Qed.

(** C9. In any ledger state, a call of [annuler] or [retablir] that returns
    gives back the snapshot sequence it was given, element for element, and
    the same limit: only the cursor, the canvas and the buttons can differ.
    In every reachable state both calls do return. *)
Theorem undo_redo_keep_history h :
  (forall h',
      annuler loadFromJSON h = inr h' \/ retablir loadFromJSON h = inr h' ->
      history h' = history h /\ limit h' = limit h)
  /\ (reachable toJSON loadFromJSON h ->
      exists hu hr,
        annuler loadFromJSON h = inr hu /\ retablir loadFromJSON h = inr hr).
Proof.
  split.
  - intros h' [Hu | Hr]; [ exact (annuler_frame h h' Hu) | exact (retablir_frame h h' Hr) ].
  - intros Hr. pose proof (reachable_inv h Hr) as Hinv.
    destruct (annuler_inv h Hinv) as (hu & Hu & _).
    destruct (retablir_inv h Hinv) as (hr & Hre & _).
    exists hu, hr. auto.
Qed.

(** C10. On a ledger that has just been constructed (no snapshot, cursor
    -1) [annuler] and [retablir] return the ledger unchanged, canvas
    included, without throwing.  No index of the empty sequence holds a
    snapshot, and a call of [loadState] would have stopped at its read of
    [history[-1]]: neither operation performed one. *)
Theorem fresh_ledger_undo_redo_safe c lim ub rb :
  let h := constructor (Snapshot := Snapshot) c lim ub rb in
  history h = [] /\ currentIndex h = -1
  /\ annuler loadFromJSON h = inr h /\ retablir loadFromJSON h = inr h
  /\ (forall i, js_index (history h) i = None)
  /\ loadState loadFromJSON h = inl UndefinedSnapshot.
Proof.
  simpl. split; [ reflexivity | ]. split; [ reflexivity | ].
  split; [ reflexivity | ]. split; [ reflexivity | ].
  split; [ intros i; apply js_index_nil | reflexivity ].
Qed.

(** *** Runs of recordings and of undos *)

Lemma record_each_cursor cs : forall h,
  ledger_inv h -> 0 < limit h ->
  ledger_inv (record_each toJSON cs h)
  /\ limit (record_each toJSON cs h) = limit h
  /\ currentIndex (record_each toJSON cs h)
     = (if decide (cs = []) then currentIndex h
        else Z.min (currentIndex h + len cs) (limit h - 1))
  /\ (cs <> [] ->
      len (history (record_each toJSON cs h))
      = currentIndex (record_each toJSON cs h) + 1).
Proof.
  induction cs as [ | c cs IH]; intros h Hinv Hlim; simpl.
  - split; [ exact Hinv | ]. split; [ reflexivity | ].
    split; [ reflexivity | congruence ].
  - pose proof (set_canvas_inv h c Hinv) as Hinv1.
    destruct (record_shape (set_canvas c h) Hinv1 Hlim)
      as (Hl & _ & Hi & _ & Hn). simpl in Hl, Hi.
    pose proof (record_inv _ Hinv1) as Hinv2.
    destruct (IH (enregistrerEtat toJSON (set_canvas c h)) Hinv2) as (Ha & Hb & Hc & Hd);
      [ lia | ].
    split; [ exact Ha | ]. split; [ lia | ].
    assert (Hlow : -1 <= currentIndex h).
    { destruct Hinv as (_ & [[_ ->] | ?] & _); lia. }
    destruct (decide (cs = [])) as [-> | Hne].
    + simpl in *. split; [ unfold len; simpl; lia | ]. intros _. exact Hn.
    + assert (Hpos : 0 < len cs).
      { destruct cs; [ congruence | unfold len; simpl; lia ]. }
      split; [ | intros _; apply Hd, Hne ].
      rewrite Hc, Hi, Hl.
      replace (len (c :: cs)) with (len cs + 1) by (unfold len; simpl; lia).
      lia.
Qed.

Lemma repeat_annuler_cursor n : forall h,
  ledger_inv h -> 0 <= currentIndex h ->
  exists h', repeat_annuler loadFromJSON n h = inr h'
    /\ ledger_inv h'
    /\ history h' = history h
    /\ currentIndex h' = Z.max 0 (currentIndex h - Z.of_nat n).
Proof.
  induction n as [ | n IH]; intros h Hinv Hi; simpl.
  - exists h. split; [ reflexivity | ]. split; [ exact Hinv | ].
    split; [ reflexivity | lia ].
  - destruct (annuler_inv h Hinv) as (h1 & Hu & Hinv1 & Hh1 & _ & Hc1).
    rewrite Hu. simpl.
    unfold canUndo in Hc1.
    destruct (IH h1 Hinv1) as (h' & Hr & Hinv' & Hh' & Hc').
    { destruct (0 <? currentIndex h) eqn:E; lia. }
    exists h'. split; [ exact Hr | ]. split; [ exact Hinv' | ].
    split; [ congruence | ].
    rewrite Hc', Hc1. destruct (0 <? currentIndex h) eqn:E; lia.
Qed.

(** A call of [annuler] that passes its guard puts on the canvas the
    snapshot under the new cursor, loaded and rebuilt. *)
Lemma annuler_loads h :
  ledger_inv h -> 0 < currentIndex h ->
  exists h' snap,
    annuler loadFromJSON h = inr h'
    /\ ledger_inv h'
    /\ history h' = history h
    /\ currentIndex h' = currentIndex h - 1
    /\ js_index (history h) (currentIndex h - 1) = Some snap
    /\ canvas h' = rebuilt (loadFromJSON snap) <$> loadFromJSON snap.
Proof.
  intros Hinv Hpos.
  assert (Hi : 0 <= currentIndex h - 1 < len (history h)).
  { destruct Hinv as (_ & [[_ ?] | ?] & _); lia. }
  destruct (js_index_in_range _ _ Hi) as [snap Hsnap].
  exists (updateButtons
            (set_canvas (rebuilt (loadFromJSON snap) <$> loadFromJSON snap)
               (set_currentIndex (currentIndex h - 1) h))), snap.
  split.
  { unfold annuler, canUndo, loadState.
    destruct (0 <? currentIndex h) eqn:E; [ | lia ].
    simpl. rewrite Hsnap, reestablishAssociations_rebuilt. reflexivity. }
  split; [ apply moved_cursor_inv; [ exact Hinv | exact Hi ] | ].
  simpl. auto.
Qed.

Lemma repeat_annuler_blocked n : forall h,
  currentIndex h <= 0 -> repeat_annuler loadFromJSON n h = inr h.
Proof.
  induction n as [ | n IH]; intros h Hi; simpl; [ reflexivity | ].
  rewrite (annuler_blocked h Hi). simpl. apply IH, Hi.
Qed.

Lemma repeat_annuler_loads n : forall h,
  ledger_inv h -> 0 < currentIndex h -> (0 < n)%nat ->
  exists h' snap,
    repeat_annuler loadFromJSON n h = inr h'
    /\ currentIndex h' = Z.max 0 (currentIndex h - Z.of_nat n)
    /\ js_index (history h) (currentIndex h') = Some snap
    /\ canvas h' = rebuilt (loadFromJSON snap) <$> loadFromJSON snap.
Proof.
  induction n as [ | n IH]; intros h Hinv Hpos Hn; [ lia | ].
  destruct (annuler_loads h Hinv Hpos)
    as (h1 & snap & Hu & Hinv1 & Hh1 & Hc1 & Hsnap & Hcanvas).
  simpl. rewrite Hu. simpl.
  destruct (decide (0 < currentIndex h1 /\ (0 < n)%nat)) as [[Hp Hn'] | Hstop].
  - destruct (IH h1 Hinv1 Hp Hn') as (h' & snap' & Hr & Hc' & Hs' & Hcv').
    exists h', snap'. split; [ exact Hr | ].
    split; [ lia | ]. split; [ rewrite <- Hh1; exact Hs' | exact Hcv' ].
  - exists h1, snap.
    assert (Hr : repeat_annuler loadFromJSON n h1 = inr h1).
    { destruct n as [ | n']; [ reflexivity | ].
      apply repeat_annuler_blocked. lia. }
    split; [ exact Hr | ]. split; [ lia | ].
    split; [ rewrite Hc1; exact Hsnap | exact Hcanvas ].
Qed.

(** A recording leaves the canvas alone. *)
Lemma record_canvas h : canvas (enregistrerEtat toJSON h) = canvas h.
Proof. unfold enregistrerEtat. destruct (limit h <? _); reflexivity. Qed.

Lemma record_each_canvas cs : forall h,
  cs <> [] -> Some (canvas (record_each toJSON cs h)) = last cs.
Proof.
  induction cs as [ | c cs IH]; intros h Hne; [ congruence | ].
  change (record_each toJSON (c :: cs) h)
    with (record_each toJSON cs (enregistrerEtat toJSON (set_canvas c h))).
  destruct cs as [ | c' cs'].
  - simpl. rewrite record_canvas. reflexivity.
  - rewrite IH by discriminate. reflexivity.
Qed.

(** Recording on top of a sequence that ends at the cursor: the last
    [limit] snapshots of the old sequence followed by the new one. *)
Lemma record_window h :
  ledger_inv h -> 0 < limit h ->
  len (history h) = currentIndex h + 1 ->
  history (enregistrerEtat toJSON h)
  = drop (length (history h ++ [toJSON (canvas h)]) - Z.to_nat (limit h))
      (history h ++ [toJSON (canvas h)]).
Proof.
  intros Hinv Hlim Htip.
  destruct (record_shape h Hinv Hlim) as (_ & _ & _ & Hh & _).
  rewrite take_ge in Hh by (unfold len in Htip; lia).
  rewrite Hh. rewrite length_app. simpl.
  assert (Hb : len (history h) <= limit h).
  { destruct Hinv as (Hbound & _ & _). lia. }
  unfold len in *.
  destruct (limit h <? currentIndex h + 2) eqn:E.
  - replace (length (history h) + 1 - Z.to_nat (limit h))%nat with 1%nat by lia.
    rewrite drop_app.
    replace (1 - length (history h))%nat with 0%nat by lia.
    reflexivity.
  - replace (length (history h) + 1 - Z.to_nat (limit h))%nat with 0%nat by lia.
    reflexivity.
Qed.

Lemma record_each_window cs : forall h,
  ledger_inv h -> 0 < limit h ->
  len (history h) = currentIndex h + 1 ->
  history (record_each toJSON cs h)
  = drop (length (history h ++ (toJSON <$> cs)) - Z.to_nat (limit h))
      (history h ++ (toJSON <$> cs)).
Proof.
  induction cs as [ | c cs IH]; intros h Hinv Hlim Htip.
  - simpl. rewrite app_nil_r.
    destruct Hinv as (Hbound & _ & _). unfold len in *.
    replace (length (history h) - Z.to_nat (limit h))%nat with 0%nat by lia.
    reflexivity.
  - change (record_each toJSON (c :: cs) h)
      with (record_each toJSON cs (enregistrerEtat toJSON (set_canvas c h))).
    pose proof (set_canvas_inv h c Hinv) as Hinv0.
    pose proof (record_inv _ Hinv0) as Hinv1.
    destruct (record_shape (set_canvas c h) Hinv0 Hlim)
      as (Hl & _ & _ & _ & Hn).
    change (limit (set_canvas c h)) with (limit h) in Hl.
    rewrite (IH _ Hinv1) by (rewrite ?Hl; auto; lia).
    rewrite Hl.
    rewrite (record_window (set_canvas c h) Hinv0 Hlim Htip).
    change (history (set_canvas c h)) with (history h).
    change (canvas (set_canvas c h)) with c.
    change (limit (set_canvas c h)) with (limit h).
    rewrite fmap_cons.
    replace (history h ++ toJSON c :: (toJSON <$> cs))
      with ((history h ++ [toJSON c]) ++ (toJSON <$> cs))
      by (rewrite <- app_assoc; reflexivity).
    set (A := history h ++ [toJSON c]).
    set (S := toJSON <$> cs).
    set (L := Z.to_nat (limit h)).
    assert (HA : (length A <= L + 1)%nat).
    { unfold A, L. rewrite length_app. simpl.
      destruct Hinv as (Hbound & _ & _). unfold len in *. lia. }
    replace (drop (length A - L) A ++ S) with (drop (length A - L) (A ++ S)).
    + rewrite drop_drop. f_equal.
      rewrite length_drop, !length_app. lia.
    + rewrite drop_app. f_equal.
      replace (length A - L - length A)%nat with 0%nat by lia. reflexivity.
Qed.

(** Recording the scenes [c :: cs] one after the other, from any state of
    the invariant: the first recording discards what lay after the cursor,
    and the ledger ends as the last [limit] snapshots of the kept ones
    followed by the new ones. *)
Lemma record_each_recorded h c cs :
  ledger_inv h -> 0 < limit h ->
  let recorded := take (Z.to_nat (currentIndex h + 1)) (history h)
                  ++ (toJSON <$> c :: cs) in
  history (record_each toJSON (c :: cs) h)
  = drop (length recorded - Z.to_nat (limit h)) recorded.
Proof.
  intros Hinv Hlim recorded.
  pose proof (set_canvas_inv h c Hinv) as Hinv0.
  pose proof (record_inv _ Hinv0) as Hinv1.
  destruct (record_shape (set_canvas c h) Hinv0 Hlim)
    as (Hl & _ & _ & Hh & Hn).
  simpl in Hl, Hh.
  set (kept := take (Z.to_nat (currentIndex h + 1)) (history h)) in *.
  assert (Hk : len kept = currentIndex h + 1).
  { destruct Hinv as (_ & Hcur & _). unfold kept, len in *.
    rewrite length_take. destruct Hcur as [[-> ->] | ?]; simpl; lia. }
  assert (Hb : currentIndex h + 1 <= limit h).
  { destruct Hinv as (Hbound & Hcur & _). lia. }
  change (record_each toJSON (c :: cs) h)
    with (record_each toJSON cs (enregistrerEtat toJSON (set_canvas c h))).
  rewrite (record_each_window cs _ Hinv1) by (rewrite ?Hl; auto; lia).
  rewrite Hl, Hh.
  set (S := toJSON <$> cs).
  set (L := Z.to_nat (limit h)).
  unfold recorded. rewrite fmap_cons. fold S.
  unfold len in Hk.
  destruct (limit h <? currentIndex h + 2) eqn:E.
  - replace ((drop 1 kept ++ [toJSON c]) ++ S) with (drop 1 (kept ++ toJSON c :: S)).
    + rewrite drop_drop. f_equal.
      rewrite length_drop, !length_app. simpl. lia.
    + rewrite drop_app.
      replace (1 - length kept)%nat with 0%nat by lia.
      rewrite <- app_assoc. reflexivity.
  - rewrite <- app_assoc. reflexivity.
Qed.

(** Once at least [limit] scenes have been recorded in a row, nothing older
    is left: the ledger is the snapshots of the last [limit] of them, in
    the order of recording. *)
Lemma record_each_recent h cs :
  ledger_inv h -> 0 < limit h -> limit h <= len cs ->
  history (record_each toJSON cs h)
  = drop (length cs - Z.to_nat (limit h)) (toJSON <$> cs).
Proof.
  intros Hinv Hlim HN.
  destruct cs as [ | c cs]; [ unfold len in HN; simpl in HN; lia | ].
  rewrite (record_each_recorded h c cs Hinv Hlim). cbv zeta.
  set (kept := take (Z.to_nat (currentIndex h + 1)) (history h)).
  set (new := toJSON <$> c :: cs).
  assert (Hnew : length new = length (c :: cs)) by (unfold new; apply length_fmap).
  assert (HL : (Z.to_nat (limit h) <= length new)%nat)
    by (unfold len in HN; lia).
  rewrite <- Hnew.
  rewrite drop_app, length_app.
  rewrite drop_ge by lia. rewrite app_nil_l.
  f_equal. lia.
Qed.

(** C1. From any reachable ledger whose limit [L] is positive, [N > L]
    recordings in a row (scene edits in between, no undo or redo) leave
    exactly [L] snapshots: those of the last [L] scenes recorded, in the
    order of recording, whatever the ledger held before.  The cursor is at
    [L - 1], on the snapshot of the last scene, which is the scene on the
    canvas.  Repeated undo then returns each time without touching the
    sequence; after [k] calls the cursor is at [L - 1 - k] while
    [k <= L - 1], so each of the first [L - 1] calls moved it one step, and
    at 0 from then on: the guard of [annuler] holds exactly before the
    first [L - 1] calls, and any further call returns its state unchanged.
    The snapshot under the cursor after [k] calls is the one of the scene
    recorded [min k (L - 1)] recordings before the last, so from the call
    [L - 1] on it is the one of scene [N - L], the oldest kept, and no call
    reaches an older scene.  After at least one call (and when [L > 1]) the
    canvas shows the snapshot under the cursor, loaded and rebuilt. *)
Theorem depth_bound h cs :
  reachable toJSON loadFromJSON h -> 0 < limit h -> limit h < len cs ->
  let L := limit h in
  let h' := record_each toJSON cs h in
  len (history h') = L
  /\ history h' = drop (length cs - Z.to_nat L) (toJSON <$> cs)
  /\ currentIndex h' = L - 1
  /\ js_index (history h') (currentIndex h') = toJSON <$> last cs
  /\ Some (canvas h') = last cs
  /\ forall k : nat, exists hk,
       repeat_annuler loadFromJSON k h' = inr hk
       /\ history hk = history h'
       /\ currentIndex hk = Z.max 0 (L - 1 - Z.of_nat k)
       /\ (canUndo hk = true <-> Z.of_nat k < L - 1)
       /\ (L - 1 <= Z.of_nat k -> annuler loadFromJSON hk = inr hk)
       /\ js_index (history h') (currentIndex hk)
          = toJSON <$> cs !! (length cs - 1 - Nat.min k (Z.to_nat (L - 1)))%nat
       /\ ((0 < k)%nat -> 1 < L ->
           exists snap,
             js_index (history h') (currentIndex hk) = Some snap
             /\ canvas hk = rebuilt (loadFromJSON snap) <$> loadFromJSON snap).
Proof.
  intros Hr Hlim HN L h'.
  pose proof (reachable_inv h Hr) as Hinv.
  destruct (record_each_cursor cs h Hinv Hlim) as (Hinv' & Hl & Hc & Hn).
  assert (Hne : cs <> []).
  { intros ->. unfold len in HN. simpl in HN. lia. }
  destruct (decide (cs = [])) as [? | _]; [ contradiction | ].
  assert (Hlow : -1 <= currentIndex h).
  { destruct Hinv as (_ & [[_ ->] | ?] & _); lia. }
  assert (Hcur : currentIndex h' = L - 1) by (unfold h', L; lia).
  assert (Hhist : history h' = drop (length cs - Z.to_nat L) (toJSON <$> cs)).
  { unfold h', L. apply record_each_recent; [ exact Hinv | exact Hlim | lia ]. }
  assert (Hlook : forall i : Z, 0 <= i ->
            js_index (history h') i
            = toJSON <$> cs !! (length cs - Z.to_nat L + Z.to_nat i)%nat).
  { intros i Hi. rewrite Hhist. unfold js_index.
    destruct (i <? 0) eqn:E; [ lia | ].
    rewrite lookup_drop, list_lookup_fmap. reflexivity. }
  assert (HNL : (Z.to_nat L < length cs)%nat) by (unfold len in HN; fold L in HN; lia).
  split; [ unfold h', L in *; rewrite (Hn Hne); lia | ].
  split; [ exact Hhist | ].
  split; [ exact Hcur | ].
  split.
  { rewrite Hlook by lia. rewrite last_lookup. f_equal. f_equal.
    fold L in Hlim. lia. }
  split; [ apply record_each_canvas, Hne | ].
  intros k.
  destruct (repeat_annuler_cursor k h' Hinv') as (hk & Hk & Hinvk & Hhk & Hck);
    [ lia | ].
  exists hk. split; [ exact Hk | ]. split; [ exact Hhk | ].
  rewrite Hcur in Hck.
  split; [ exact Hck | ].
  split; [ unfold canUndo; lia | ].
  split; [ intros Hge; apply annuler_blocked; lia | ].
  split.
  { rewrite Hlook by lia. f_equal. f_equal. fold L in Hlim. lia. }
  intros Hk0 HL.
  destruct (repeat_annuler_loads k h' Hinv') as (hk' & snap & Hk' & _ & Hs & Hcv);
    [ lia | exact Hk0 | ].
  rewrite Hk in Hk'. injection Hk' as <-.
  exists snap. split; [ exact Hs | exact Hcv ].
Qed.

(** *** Record, undo, redo *)

Lemma js_index_last {A} (l : list A) (x : A) :
  js_index (l ++ [x]) (len l) = Some x.
Proof.
  unfold js_index, len.
  destruct (Z.of_nat (length l) <? 0) eqn:E; [ apply Z.ltb_lt in E; lia | ].
  rewrite Nat2Z.id. apply list_lookup_middle. reflexivity.
Qed.

(** On a reachable ledger that already holds a snapshot and has room for
    two, recording the scene [c], undoing and redoing leaves on the canvas
    what the loader makes of the snapshot of [c], rebuilt. *)
Lemma record_undo_redo_canvas h c :
  reachable toJSON loadFromJSON h -> history h <> [] -> 2 <= limit h ->
  exists h2 h3,
    annuler loadFromJSON (enregistrerEtat toJSON (set_canvas c h)) = inr h2
    /\ retablir loadFromJSON h2 = inr h3
    /\ canvas h3
       = rebuilt (loadFromJSON (toJSON c)) <$> loadFromJSON (toJSON c).
Proof.
  intros Hr Hne Hlim.
  pose proof (set_canvas_inv h c (reachable_inv h Hr)) as Hinv0.
  assert (Hi0 : 0 <= currentIndex h).
  { destruct Hinv0 as (_ & [[? _] | ?] & _); simpl in *; [ contradiction | lia ]. }
  destruct (record_shape (set_canvas c h) Hinv0) as (Hl & _ & Hi & Hh & Hn);
    [ simpl; lia | ].
  simpl in Hl, Hi, Hh.
  pose proof (record_inv _ Hinv0) as Hinv1.
  set (h1 := enregistrerEtat toJSON (set_canvas c h)) in *.
  destruct (annuler_inv h1 Hinv1) as (h2 & Hu & Hinv2 & Hh2 & Hl2 & Hc2).
  unfold canUndo in Hc2.
  destruct (0 <? currentIndex h1) eqn:E1; [ | lia ].
  exists h2. eexists. split; [ exact Hu | ].
  unfold retablir, canRedo.
  destruct (currentIndex h2 <? len (history h2) - 1) eqn:E2;
    [ | rewrite Hh2 in E2; lia ].
  unfold loadState. simpl.
  replace (currentIndex h2 + 1) with (currentIndex h1) by lia.
  rewrite Hh2, Hh.
  match goal with
  | |- context [js_index (?l ++ [?x]) ?i] =>
      replace i with (len l);
        [ rewrite (js_index_last l x)
        | rewrite Hh in Hn; unfold len in *; rewrite length_app in Hn;
          simpl in Hn; lia ]
  end.
  rewrite reestablishAssociations_rebuilt. simpl.
  split; reflexivity.
Qed.

(** *** Redo-branch pruning *)

(** Recording on top of [front ++ recent], with room for [recent] and one
    more snapshot below the limit, keeps [recent] and may only evict the
    head of [front]. *)
Lemma record_keeps_recent h front recent :
  ledger_inv h ->
  take (Z.to_nat (currentIndex h + 1)) (history h) = front ++ recent ->
  len recent + 1 <= limit h ->
  exists front',
    history (enregistrerEtat toJSON h) = front' ++ recent ++ [toJSON (canvas h)]
    /\ currentIndex (enregistrerEtat toJSON h) = len front' + len recent
    /\ ledger_inv (enregistrerEtat toJSON h) /\ limit (enregistrerEtat toJSON h) = limit h.
Proof.
  intros Hinv Hkept Hroom.
  pose proof (len_nonneg recent) as Hrec.
  destruct (record_shape h Hinv) as (Hl & _ & Hi & Hh & Hn); [ lia | ].
  pose proof (record_inv h Hinv) as Hinv'.
  rewrite Hkept in Hh.
  assert (Hk : len (front ++ recent) = currentIndex h + 1).
  { rewrite <- Hkept. destruct Hinv as (_ & Hcur & _). unfold len in *.
    rewrite length_take. destruct Hcur as [[-> ->] | ?]; simpl; lia. }
  unfold len in Hk. rewrite length_app in Hk.
  assert (Hb : currentIndex h + 1 <= limit h).
  { destruct Hinv as (Hbound & Hcur & _). lia. }
  destruct (limit h <? currentIndex h + 2) eqn:E.
  - destruct front as [ | x front'].
    { unfold len in Hroom. simpl in Hk. lia. }
    exists front'. simpl in Hh. rewrite drop_0 in Hh.
    split; [ rewrite Hh, <- app_assoc; reflexivity | ].
    split; [ | auto ].
    unfold len in *. rewrite length_cons in Hk. rewrite Hi. lia.
  - exists front.
    split; [ rewrite Hh, <- app_assoc; reflexivity | ].
    split; [ | auto ].
    unfold len in *. rewrite Hi. lia.
Qed.

(** C2, amended. On a reachable ledger with a limit of at least 3: record
    A, B and C, undo twice (both calls return; the cursor is then on the
    snapshot of A), edit the scene to D and record.  The sequence is then
    the one that ended with A, followed by D: the entries recorded for B
    and C have been discarded.  The guard of [retablir] is false, a call of
    [retablir] returns the ledger unchanged, and the redo button, if the
    page has one, is disabled. *)
Theorem redo_branch_pruned h A B C D :
  reachable toJSON loadFromJSON h -> 3 <= limit h ->
  let h3 := record_each toJSON [A; B; C] h in
  exists front h4 h5,
    history h3 = front ++ [toJSON A; toJSON B; toJSON C]
    /\ annuler loadFromJSON h3 = inr h4 /\ annuler loadFromJSON h4 = inr h5
    /\ js_index (history h5) (currentIndex h5) = Some (toJSON A)
    /\ let h6 := enregistrerEtat toJSON (set_canvas D h5) in
       history h6 = front ++ [toJSON A; toJSON D]
       /\ canRedo h6 = false
       /\ retablir loadFromJSON h6 = inr h6
       /\ (forall b, redoBtn h6 = Some b -> disabled b = true).
Proof.
  intros Hr Hlim. simpl.
  pose proof (reachable_inv h Hr) as Hinv.
  (* record A *)
  destruct (record_keeps_recent (set_canvas A h)
              (take (Z.to_nat (currentIndex h + 1)) (history h)) [])
    as (fA & HhA & HiA & HinvA & HlA).
  { apply set_canvas_inv, Hinv. }
  { simpl. rewrite app_nil_r. reflexivity. }
  { unfold len. simpl. lia. }
  simpl in HhA, HiA, HlA. unfold len in HiA. simpl in HiA.
  set (hA := enregistrerEtat toJSON (set_canvas A h)) in *.
  (* record B *)
  destruct (record_keeps_recent (set_canvas B hA) fA [toJSON A])
    as (fB & HhB & HiB & HinvB & HlB).
  { apply set_canvas_inv, HinvA. }
  { simpl. rewrite HhA, HiA. apply take_ge.
    rewrite length_app. simpl. lia. }
  { unfold len. simpl. lia. }
  simpl in HhB, HiB, HlB. unfold len in HiB. simpl in HiB.
  set (hB := enregistrerEtat toJSON (set_canvas B hA)) in *.
  (* record C *)
  destruct (record_keeps_recent (set_canvas C hB) fB [toJSON A; toJSON B])
    as (fC & HhC & HiC & HinvC & HlC).
  { apply set_canvas_inv, HinvB. }
  { simpl. rewrite HhB, HiB. apply take_ge.
    rewrite length_app. simpl. lia. }
  { unfold len. simpl. lia. }
  simpl in HhC, HiC, HlC. unfold len in HiC. simpl in HiC.
  set (hC := enregistrerEtat toJSON (set_canvas C hB)) in *.
  (* undo, undo *)
  destruct (annuler_inv hC HinvC) as (h4 & Hu4 & Hinv4 & Hh4 & Hl4 & Hc4).
  unfold canUndo in Hc4.
  destruct (0 <? currentIndex hC) eqn:E4; [ | lia ].
  destruct (annuler_inv h4 Hinv4) as (h5 & Hu5 & Hinv5 & Hh5 & Hl5 & Hc5).
  unfold canUndo in Hc5.
  destruct (0 <? currentIndex h4) eqn:E5; [ | lia ].
  assert (Hi5 : currentIndex h5 = Z.of_nat (length fC)) by lia.
  assert (Hhist5 : history h5 = fC ++ [toJSON A; toJSON B; toJSON C]).
  { rewrite Hh5, Hh4, HhC. reflexivity. }
  exists fC, h4, h5.
  split; [ exact HhC | ]. split; [ exact Hu4 | ]. split; [ exact Hu5 | ].
  split.
  { rewrite Hhist5, Hi5. unfold js_index.
    destruct (Z.of_nat (length fC) <? 0) eqn:E; [ lia | ].
    rewrite Nat2Z.id. apply list_lookup_middle. reflexivity. }
  (* record D *)
  pose proof (set_canvas_inv h5 D Hinv5) as HinvD.
  assert (Hlen5 : len (history h5) = Z.of_nat (length fC) + 3).
  { rewrite Hhist5. unfold len. rewrite length_app. simpl. lia. }
  assert (Hlim5 : Z.of_nat (length fC) + 3 <= limit h5).
  { destruct Hinv5 as (Hb & _ & _). lia. }
  destruct (record_shape (set_canvas D h5) HinvD) as (Hl6 & _ & Hi6 & Hh6 & Hn6).
  { simpl. lia. }
  simpl in Hl6, Hi6, Hh6.
  set (h6 := enregistrerEtat toJSON (set_canvas D h5)) in *.
  destruct (limit h5 <? currentIndex h5 + 2) eqn:E6; [ lia | ].
  assert (Hkept : take (Z.to_nat (currentIndex h5 + 1)) (history h5)
                  = fC ++ [toJSON A]).
  { rewrite Hhist5, Hi5.
    replace (Z.to_nat (Z.of_nat (length fC) + 1)) with (length fC + 1)%nat by lia.
    change [toJSON A; toJSON B; toJSON C]
      with ([toJSON A] ++ [toJSON B; toJSON C]).
    rewrite app_assoc. apply take_app_length'.
    rewrite length_app. reflexivity. }
  rewrite Hkept in Hh6.
  pose proof (record_inv _ HinvD) as Hinv6. fold h6 in Hinv6.
  assert (Htip : len (history h6) - 1 <= currentIndex h6) by lia.
  split; [ rewrite Hh6, <- app_assoc; reflexivity | ].
  split; [ unfold canRedo; lia | ].
  split; [ apply retablir_blocked; exact Htip | ].
  intros b Hb. rewrite (inv_redoBtn h6 b Hinv6 Hb). lia.
Qed.

End LedgerFacts.

(** ** The rebuilder on a loaded snapshot *)

Section Relinking.

Context {Snapshot : Type}.
Variable loadFromJSON : Snapshot -> Canvas.

Lemma rebuilt_side c o sd :
  side_attr sd (rebuilt c o)
  = if measurable (o_type o) then relinked c (side_attr sd o) else side_attr sd o.
Proof. unfold rebuilt. destruct (measurable _), sd; reflexivity. Qed.

Lemma relinked_no_match c a :
  find_by_id c (lookup_key c a) = None -> relinked c a = a.
Proof. intros H. unfold relinked. rewrite H. destruct (truthy a); reflexivity. Qed.

(** An attribute that holds a bare identifier is looked up under
    [undefined], whatever the identifier: when every object has an [id],
    nothing matches and the identifier stays. *)
Lemma bare_identifier_stays c p :
  Forall (fun o => o_id o <> PUndefined) c ->
  relinked c (APrim p) = APrim p.
Proof.
  intros Hids. apply relinked_no_match. simpl.
  unfold find_by_id. apply list_find_None. exact Hids.
Qed.

(** An attribute that holds an object with an [id] is replaced by a live
    reference to the first canvas object with that [id]. *)
Lemma identified_object_relinked c i t k o :
  find_by_id c i = Some (k, o) -> relinked c (APlain i t) = ALive k.
Proof. intros H. unfold relinked. simpl. rewrite H. reflexivity. Qed.


End Relinking.

(** ** With the codec of the specification *)

Lemma record_last {Snapshot : Type} (toJSON : Canvas -> Snapshot)
    (h : HistoryModule Snapshot) :
  0 < limit h ->
  last (history (enregistrerEtat toJSON h)) = Some (toJSON (canvas h)).
Proof.
  intros Hlim. unfold enregistrerEtat.
  set (hist1 := if currentIndex h <? len (history h) - 1
                then slice0 (history h) (currentIndex h + 1)
                else history h).
  destruct (limit h <? len (push hist1 (toJSON (canvas h)))) eqn:E; simpl.
  - unfold shift, push in *. destruct hist1 as [ | x rest].
    + change (len ([] ++ [toJSON (canvas h)])) with 1 in E. lia.
    + simpl. rewrite drop_0. apply last_snoc.
  - apply last_snoc.
Qed.

Lemma portable_roundtrip_side (c : Canvas) (i : nat) o sd :
  c !! i = Some o ->
  exists so o',
    toPortable c !! i = Some so
    /\ s_side_attr sd so = portable_attr c (side_attr sd o)
    /\ fromPortable (toPortable c) !! i = Some o'
    /\ side_attr sd o' = loaded_attr (portable_attr c (side_attr sd o))
    /\ o_id o' = o_id o /\ o_type o' = o_type o /\ o_text o' = o_text o.
Proof.
  intros Ho. unfold fromPortable, toPortable.
  rewrite !list_lookup_fmap, Ho. simpl.
  eexists. eexists. split; [ reflexivity | ].
  split; [ destruct sd; reflexivity | ].
  split; [ reflexivity | ].
  split; [ destruct sd; reflexivity | auto ].
Qed.

(** C4. With the serializer and the loader of the specification: for a
    ledger with a positive limit whose canvas has, at position [i], an
    object with a side-channel attribute that is a live reference to the
    canvas object [label], [enregistrerEtat] stores as newest snapshot the
    serialized canvas, in which the attribute of object [i] is the bare
    identifier of [label]; loading that snapshot gives object [i] the same
    bare identifier as attribute value, not a live reference. *)
Theorem snapshot_holds_label_identifier
    (h : HistoryModule PortableSnapshot) (i : nat) o sd (k : nat) label :
  0 < limit h ->
  canvas h !! i = Some o ->
  side_attr sd o = ALive k ->
  canvas h !! k = Some label ->
  exists so o',
    last (history (enregistrerEtat toPortable h)) = Some (toPortable (canvas h))
    /\ toPortable (canvas h) !! i = Some so
    /\ s_side_attr sd so = SPrim (o_id label)
    /\ fromPortable (toPortable (canvas h)) !! i = Some o'
    /\ side_attr sd o' = APrim (o_id label)
    /\ is_live (side_attr sd o') = false.
Proof.
  intros Hlim Ho Hlive Hlabel.
  destruct (portable_roundtrip_side (canvas h) i o sd Ho)
    as (so & o' & Hso & Hs & Ho' & Hside & _).
  rewrite Hlive in Hs, Hside. simpl in Hs, Hside. rewrite Hlabel in Hs, Hside.
  exists so, o'.
  split; [ apply record_last, Hlim | ].
  split; [ exact Hso | ]. split; [ exact Hs | ].
  split; [ exact Ho' | ]. split; [ exact Hside | ].
  rewrite Hside. reflexivity.
Qed.

Lemma portable_roundtrip_ids (c : Canvas) :
  o_id <$> fromPortable (toPortable c) = o_id <$> c.
Proof.
  unfold fromPortable, toPortable. rewrite <- !list_fmap_compose.
  apply list_fmap_ext. intros j o _. reflexivity.
Qed.

(** With the codec of the specification, in any scene whose objects all
    have an [id], a side-channel reference comes back from a record, undo,
    redo cycle as the bare identifier of its label: the rebuilder never
    turns it into a live reference again. *)
Lemma undo_redo_never_relinks
    (h : HistoryModule PortableSnapshot) (c : Canvas) (i : nat) o sd (k : nat) label :
  reachable toPortable fromPortable h -> history h <> [] -> 2 <= limit h ->
  Forall (fun t => o_id t <> PUndefined) c ->
  c !! i = Some o -> side_attr sd o = ALive k -> c !! k = Some label ->
  exists h2 h3 o',
    annuler fromPortable (enregistrerEtat toPortable (set_canvas c h)) = inr h2
    /\ retablir fromPortable h2 = inr h3
    /\ canvas h3 !! i = Some o'
    /\ side_attr sd o' = APrim (o_id label)
    /\ is_live (side_attr sd o') = false.
Proof.
  intros Hr Hne Hlim Hids Ho Hlive Hlabel.
  destruct (record_undo_redo_canvas toPortable fromPortable h c Hr Hne Hlim)
    as (h2 & h3 & Hu & Hre & Hcanvas).
  destruct (portable_roundtrip_side c i o sd Ho)
    as (so & o1 & _ & _ & Ho1 & Hside & _).
  rewrite Hlive in Hside. simpl in Hside. rewrite Hlabel in Hside. simpl in Hside.
  assert (Hids' : Forall (fun t => o_id t <> PUndefined) (fromPortable (toPortable c))).
  { apply Forall_lookup. intros j t Hj.
    assert (H1 : (o_id <$> fromPortable (toPortable c)) !! j = Some (o_id t))
      by (rewrite list_lookup_fmap, Hj; reflexivity).
    rewrite portable_roundtrip_ids, list_lookup_fmap in H1.
    destruct (c !! j) as [t0 | ] eqn:E; simpl in H1; [ | discriminate ].
    injection H1 as <-.
    exact (proj1 (Forall_lookup _ _) Hids j t0 E). }
  assert (Hsame : side_attr sd (rebuilt (fromPortable (toPortable c)) o1)
                  = APrim (o_id label)).
  { rewrite rebuilt_side, Hside.
    destruct (measurable _); [ | reflexivity ].
    apply bare_identifier_stays, Hids'. }
  exists h2, h3, (rebuilt (fromPortable (toPortable c)) o1).
  split; [ exact Hu | ]. split; [ exact Hre | ].
  split; [ rewrite Hcanvas, list_lookup_fmap, Ho1; reflexivity | ].
  split; [ exact Hsame | ]. rewrite Hsame. reflexivity.
Qed.

(** C7, on the code. The application starts, a rectangle is drawn with its
    label (identifiers 1 and 2; the rectangle holds a live reference to the
    label) and recorded; then undo, then redo.  Both calls return, and in
    the restored canvas the rectangle's [measurementText] is the bare
    identifier 2: the rebuilder read [.id] of the identifier, looked for an
    object whose [id] is [undefined], found none and left the attribute as
    loaded.  It is not a live reference, although the label with identifier
    2 and the same text is on the canvas. *)
Theorem undo_redo_leaves_bare_identifier :
  exists h2 h3 shape label,
    annuler fromPortable after_drawing = inr h2
    /\ retablir fromPortable h2 = inr h3
    /\ canvas after_drawing !! 0%nat
       = Some (mkObj "rect" (PNum 1) EmptyString (ALive 1%nat) (APrim PUndefined))
    /\ canvas h3 !! 0%nat = Some shape
    /\ canvas h3 !! 1%nat = Some label
    /\ o_id label = PNum 2
    /\ Some (o_text label) = o_text <$> canvas after_drawing !! 1%nat
    /\ measurementText shape = APrim (PNum 2)
    /\ is_live (measurementText shape) = false.
Proof.
  do 4 eexists.
  split; [ vm_compute; reflexivity | ].
  split; [ vm_compute; reflexivity | ].
  vm_compute. repeat split; reflexivity.
Qed.


(** C5 as stated fails on the ledger that has just been constructed, a
    reachable state: undo is unavailable there (the guard of [annuler]
    fails, the call changes nothing, the undo button is disabled), and the
    cursor is at -1, not at 0. *)
Lemma fresh_ledger_cursor_not_zero :
  reachable toPortable fromPortable fresh_ledger
  /\ canUndo fresh_ledger = false
  /\ annuler fromPortable fresh_ledger = inr fresh_ledger
  /\ undoBtn fresh_ledger = Some (mkButton true)
  /\ currentIndex fresh_ledger = -1
  /\ ~ (currentIndex fresh_ledger = 0 <-> canUndo fresh_ledger = false).
Proof.
  split; [ apply reach_new | ].
  split; [ reflexivity | ]. split; [ reflexivity | ].
  split; [ reflexivity | ]. split; [ reflexivity | ].
  intros [_ H]. specialize (H eq_refl). discriminate H.
Qed.

(** C2 as stated fails on a ledger of depth 2.  The three recordings
    already evict A and leave the snapshots of B and C; the first undo moves
    the cursor onto B, the second is blocked; the recording of D prunes C
    only.  The snapshot recorded as B is still in the ledger, at index 0. *)
Lemma shallow_ledger_keeps_B :
  exists h4 h5,
    history (record_each toPortable
               [rect_with_label; circle_alone; triangle_alone] small_ledger)
    = [toPortable circle_alone; toPortable triangle_alone]
    /\ annuler fromPortable
         (record_each toPortable
            [rect_with_label; circle_alone; triangle_alone] small_ledger)
       = inr h4
    /\ annuler fromPortable h4 = inr h5
    /\ history (enregistrerEtat toPortable (set_canvas stroke_alone h5))
       = [toPortable circle_alone; toPortable stroke_alone]
    /\ js_index (history (enregistrerEtat toPortable (set_canvas stroke_alone h5))) 0
       = Some (toPortable circle_alone).
Proof.
  do 2 eexists. split; [ vm_compute; reflexivity | ].
  split; [ vm_compute; reflexivity | ].
  split; [ vm_compute; reflexivity | ].
  split; vm_compute; reflexivity.
Qed.

(** ** The theorems at concrete ledgers *)

Lemma app_start_reachable : reachable toPortable fromPortable app_start.
Proof. unfold app_start. apply reach_record, reach_new. Defined.

Lemma after_drawing_reachable : reachable toPortable fromPortable after_drawing.
Proof.
  unfold after_drawing. apply reach_record, reach_edit, app_start_reachable.
Defined.

Lemma depth_bound_witness :
  reachable toPortable fromPortable small_ledger
  /\ 0 < limit small_ledger
  /\ limit small_ledger < len [rect_with_label; circle_alone; triangle_alone]
  /\ history (record_each toPortable
                [rect_with_label; circle_alone; triangle_alone]
                small_ledger)
     = [toPortable circle_alone; toPortable triangle_alone]
  /\ currentIndex (record_each toPortable
                     [rect_with_label; circle_alone; triangle_alone]
                     small_ledger) = 1
  /\ exists h1 h2,
       repeat_annuler fromPortable 1
         (record_each toPortable
            [rect_with_label; circle_alone; triangle_alone] small_ledger)
       = inr h1
       /\ canvas h1 = reloaded fromPortable (toPortable circle_alone)
       /\ repeat_annuler fromPortable 2
            (record_each toPortable
               [rect_with_label; circle_alone; triangle_alone] small_ledger)
          = inr h2
       /\ h2 = h1.
Proof.
  assert (Hr : reachable toPortable fromPortable small_ledger)
    by (unfold small_ledger; apply reach_new).
  assert (Hl : 0 < limit small_ledger) by reflexivity.
  assert (Hn : limit small_ledger
               < len [rect_with_label; circle_alone; triangle_alone])
    by reflexivity.
  destruct (depth_bound toPortable fromPortable small_ledger
              [rect_with_label; circle_alone; triangle_alone] Hr Hl Hn)
    as (_ & Hhist & Hcur & _ & _ & Hundo).
  split; [ exact Hr | ]. split; [ exact Hl | ]. split; [ exact Hn | ].
  split; [ exact Hhist | ]. split; [ exact Hcur | ].
  destruct (Hundo 1%nat) as (h1 & H1 & _ & _ & _ & _ & _ & _).
  destruct (Hundo 2%nat) as (h2 & H2 & _ & _ & _ & _ & _ & _).
  exists h1, h2.
  split; [ exact H1 | ].
  split; [ vm_compute in H1; injection H1 as <-; reflexivity | ].
  split; [ exact H2 | ].
  vm_compute in H1, H2. injection H1 as <-. injection H2 as <-. reflexivity.
Defined.

Lemma redo_branch_pruned_witness :
  reachable toPortable fromPortable app_start
  /\ 3 <= limit app_start
  /\ exists front h4 h5,
       history (record_each toPortable
                  [rect_with_label; circle_alone; triangle_alone] app_start)
       = front ++ [toPortable rect_with_label; toPortable circle_alone;
                   toPortable triangle_alone]
       /\ annuler fromPortable
            (record_each toPortable
               [rect_with_label; circle_alone; triangle_alone] app_start)
          = inr h4
       /\ annuler fromPortable h4 = inr h5
       /\ js_index (history h5) (currentIndex h5) = Some (toPortable rect_with_label)
       /\ history (enregistrerEtat toPortable (set_canvas stroke_alone h5))
          = front ++ [toPortable rect_with_label; toPortable stroke_alone]
       /\ canRedo (enregistrerEtat toPortable (set_canvas stroke_alone h5)) = false.
Proof.
  assert (Hl : 3 <= limit app_start) by (vm_compute; discriminate).
  split; [ exact app_start_reachable | ]. split; [ exact Hl | ].
  destruct (redo_branch_pruned toPortable fromPortable app_start
              rect_with_label circle_alone triangle_alone stroke_alone
              app_start_reachable Hl)
    as (front & h4 & h5 & H3 & H4 & H5 & HA & H6 & Hredo & _).
  exists front, h4, h5. auto 10.
Defined.

Lemma cursor_invariant_witness :
  reachable toPortable fromPortable after_drawing
  /\ history after_drawing <> []
  /\ 0 <= currentIndex after_drawing < len (history after_drawing)
  /\ (currentIndex after_drawing = len (history after_drawing) - 1
      <-> canRedo after_drawing = false)
  /\ (currentIndex after_drawing <= 0 <-> canUndo after_drawing = false)
  /\ (currentIndex after_drawing = 0 <-> canUndo after_drawing = false).
Proof.
  assert (Hne : history after_drawing <> []) by (vm_compute; discriminate).
  destruct (cursor_invariant toPortable fromPortable after_drawing
              after_drawing_reachable)
    as (Hi & _ & Hr & _ & _ & Hu & _ & _ & Hz).
  destruct (Hz Hne) as (Hu0 & _).
  split; [ exact after_drawing_reachable | ]. split; [ exact Hne | ].
  split; [ exact (Hi Hne) | ]. split; [ exact Hr | ].
  split; [ exact Hu | exact Hu0 ].
Defined.

Lemma boundary_calls_witness :
  currentIndex app_start = 0
  /\ currentIndex app_start = len (history app_start) - 1
  /\ annuler fromPortable app_start = inr app_start
  /\ retablir fromPortable app_start = inr app_start.
Proof.
  assert (H0 : currentIndex app_start = 0) by reflexivity.
  assert (H1 : currentIndex app_start = len (history app_start) - 1)
    by reflexivity.
  destruct (boundary_calls_change_nothing fromPortable app_start) as (Hu & Hr).
  split; [ exact H0 | ]. split; [ exact H1 | ].
  split; [ exact (Hu H0) | exact (Hr H1) ].
Defined.

Lemma undo_redo_keep_history_witness :
  reachable toPortable fromPortable after_drawing
  /\ exists hu hr,
       annuler fromPortable after_drawing = inr hu
       /\ retablir fromPortable after_drawing = inr hr
       /\ history hu = history after_drawing
       /\ history hr = history after_drawing.
Proof.
  split; [ exact after_drawing_reachable | ].
  destruct (undo_redo_keep_history toPortable fromPortable after_drawing)
    as (Hframe & Hret).
  destruct (Hret after_drawing_reachable) as (hu & hr & Hu & Hr).
  exists hu, hr.
  split; [ exact Hu | ]. split; [ exact Hr | ].
  split; [ exact (proj1 (Hframe hu (or_introl Hu)))
         | exact (proj1 (Hframe hr (or_intror Hr))) ].
Defined.


Lemma snapshot_holds_label_identifier_witness :
  0 < limit (set_canvas rect_with_label app_start)
  /\ canvas (set_canvas rect_with_label app_start) !! 0%nat
     = Some (mkObj "rect" (PNum 1) EmptyString (ALive 1%nat) (APrim PUndefined))
  /\ canvas (set_canvas rect_with_label app_start) !! 1%nat
     = Some (mkObj "text" (PNum 2) "L: 4.00 cm, H: 3.00 cm"
               (APrim PUndefined) (APrim PUndefined))
  /\ exists so o',
       last (history (enregistrerEtat toPortable
                        (set_canvas rect_with_label app_start)))
         = Some (toPortable rect_with_label)
       /\ toPortable rect_with_label !! 0%nat = Some so
       /\ s_measurementText so = SPrim (PNum 2)
       /\ fromPortable (toPortable rect_with_label) !! 0%nat = Some o'
       /\ measurementText o' = APrim (PNum 2)
       /\ is_live (measurementText o') = false.
Proof.
  split; [ reflexivity | ]. split; [ reflexivity | ]. split; [ reflexivity | ].
  exact (snapshot_holds_label_identifier
           (set_canvas rect_with_label app_start) 0%nat
           (mkObj "rect" (PNum 1) EmptyString (ALive 1%nat) (APrim PUndefined))
           Measurement 1%nat
           (mkObj "text" (PNum 2) "L: 4.00 cm, H: 3.00 cm"
              (APrim PUndefined) (APrim PUndefined))
           eq_refl eq_refl eq_refl eq_refl).
Defined.

(** * Further properties of the source *)

(** ** The ledger (script.js:43-129) *)

Section LedgerMore.

Context {Snapshot : Type}.
Variable toJSON : Canvas -> Snapshot.
Variable loadFromJSON : Snapshot -> Canvas.

Implicit Types (h : HistoryModule Snapshot) (c : Canvas).

(** [annuler] and [retablir] as equations, when the guard holds and the
    snapshot read is there. *)
Lemma annuler_eq h s :
  0 < currentIndex h ->
  js_index (history h) (currentIndex h - 1) = Some s ->
  annuler loadFromJSON h
  = inr (updateButtons
           (set_canvas (reloaded loadFromJSON s)
              (set_currentIndex (currentIndex h - 1) h))).
Proof.
  intros Hpos Hs. unfold annuler, canUndo, loadState.
  destruct (0 <? currentIndex h) eqn:E; [ | lia ].
  simpl. rewrite Hs, reestablishAssociations_rebuilt. reflexivity.
Qed.

Lemma retablir_eq h s :
  currentIndex h < len (history h) - 1 ->
  js_index (history h) (currentIndex h + 1) = Some s ->
  retablir loadFromJSON h
  = inr (updateButtons
           (set_canvas (reloaded loadFromJSON s)
              (set_currentIndex (currentIndex h + 1) h))).
Proof.
  intros Hpos Hs. unfold retablir, canRedo, loadState.
  destruct (currentIndex h <? len (history h) - 1) eqn:E; [ | lia ].
  simpl. rewrite Hs, reestablishAssociations_rebuilt. reflexivity.
Qed.

Lemma inv_cursor_snapshot h :
  ledger_inv h -> history h <> [] ->
  exists s, js_index (history h) (currentIndex h) = Some s.
Proof.
  intros (_ & [[? _] | Hi] & _) Hne; [ contradiction | ].
  apply js_index_in_range, Hi.
Qed.

Lemma updateButtons_set_canvas h c :
  updateButtons (set_canvas c h) = set_canvas c (updateButtons h).
Proof. reflexivity. Qed.

Lemma moved_and_back h c1 c2 (i : Z) :
  updateButtons h = h ->
  updateButtons
    (set_canvas c2
       (set_currentIndex (currentIndex h)
          (updateButtons (set_canvas c1 (set_currentIndex i h)))))
  = set_canvas c2 h.
Proof.
  destruct h as [c hist idx lim ub rb].
  unfold updateButtons, set_canvas, set_currentIndex. simpl.
  intros [= Hu Hr].
  destruct ub, rb; simpl in *; congruence.
Qed.


(** X1. In every reachable state the ledger holds at most [limit]
    snapshots (none when the limit is not positive). *)
Theorem ledger_never_exceeds_limit h :
  reachable toJSON loadFromJSON h ->
  len (history h) <= Z.max (limit h) 0.
Proof. intros Hr. exact (proj1 (reachable_inv toJSON loadFromJSON h Hr)). Qed.

(** X2. A ledger built with a limit of 0 or less never stores anything:
    in every reachable state the sequence is empty, the cursor is -1, and
    neither guard holds, so undo and redo are never available. *)
Theorem nonpositive_limit_stores_nothing h :
  reachable toJSON loadFromJSON h -> limit h <= 0 ->
  history h = [] /\ currentIndex h = -1
  /\ canUndo h = false /\ canRedo h = false
  /\ annuler loadFromJSON h = inr h /\ retablir loadFromJSON h = inr h.
Proof.
  intros Hr Hlim.
  destruct (reachable_inv toJSON loadFromJSON h Hr) as (Hbound & Hcur & _).
  assert (Hnil : history h = []).
  { apply len_nil_inv. pose proof (len_nonneg (history h)). lia. }
  assert (Hi : currentIndex h = -1).
  { destruct Hcur as [[_ ?] | ?]; [ assumption | ].
    rewrite Hnil in *. unfold len in *. simpl in *. lia. }
  split; [ exact Hnil | ]. split; [ exact Hi | ].
  split; [ unfold canUndo; lia | ].
  split; [ unfold canRedo; rewrite Hnil, Hi; reflexivity | ].
  split; [ apply annuler_blocked; lia | ].
  apply retablir_blocked. rewrite Hnil, Hi. unfold len. simpl. lia.
Qed.

(** X3. In a reachable state with a positive limit, a recording keeps the
    snapshots up to the cursor, discards those after it, drops the oldest
    one exactly when the kept ones already fill the limit, appends the
    snapshot of the canvas and leaves the cursor on it; the canvas and the
    limit are untouched. *)
Theorem recording_keeps_prefix_and_appends h :
  reachable toJSON loadFromJSON h -> 0 < limit h ->
  let kept := take (Z.to_nat (currentIndex h + 1)) (history h) in
  let h' := enregistrerEtat toJSON h in
  history h'
  = (if currentIndex h + 1 =? limit h then drop 1 kept else kept)
      ++ [toJSON (canvas h)]
  /\ currentIndex h' = len (history h') - 1
  /\ js_index (history h') (currentIndex h') = Some (toJSON (canvas h))
  /\ canvas h' = canvas h /\ limit h' = limit h.
Proof.
  intros Hr Hlim kept h'.
  pose proof (reachable_inv toJSON loadFromJSON h Hr) as Hinv.
  destruct (record_shape toJSON h Hinv Hlim) as (Hl & Hc & Hi & Hh & Hn).
  fold kept in Hh. fold h' in Hl, Hc, Hi, Hh, Hn.
  assert (Hb : currentIndex h + 1 <= limit h).
  { destruct Hinv as (Hbound & Hcur & _). lia. }
  assert (Hsame : (limit h <? currentIndex h + 2) = (currentIndex h + 1 =? limit h)).
  { destruct (limit h <? currentIndex h + 2) eqn:E1,
             (currentIndex h + 1 =? limit h) eqn:E2; lia. }
  rewrite Hsame in Hh.
  split; [ exact Hh | ]. split; [ lia | ].
  split; [ | auto ].
  rewrite Hh.
  match goal with
  | |- js_index (?l ++ [?x]) ?i = _ =>
      replace i with (len l); [ apply js_index_last | ]
  end.
  rewrite Hh in Hn. unfold len in *. rewrite length_app in Hn. simpl in Hn. lia.
Qed.

(** X4. Undo after a recorded edit shows the state recorded before the
    edit.  In a reachable state whose cursor is on the snapshot [s], with
    a limit of at least 2: after any edit of the scene and its recording,
    [annuler] returns, the canvas is [s] loaded and rebuilt, the cursor is
    on [s] again, and redo is available. *)
Theorem undo_after_recorded_edit h c s :
  reachable toJSON loadFromJSON h -> 2 <= limit h ->
  js_index (history h) (currentIndex h) = Some s ->
  exists h2,
    annuler loadFromJSON (enregistrerEtat toJSON (set_canvas c h)) = inr h2
    /\ canvas h2 = reloaded loadFromJSON s
    /\ js_index (history h2) (currentIndex h2) = Some s
    /\ canRedo h2 = true.
Proof.
  intros Hr Hlim Hs.
  pose proof (set_canvas_inv h c (reachable_inv toJSON loadFromJSON h Hr)) as Hinv.
  assert (Hi : 0 <= currentIndex h < len (history h)).
  { unfold js_index in Hs. destruct (currentIndex h <? 0) eqn:E; [ discriminate | ].
    apply lookup_lt_Some in Hs. unfold len. lia. }
  destruct (record_shape toJSON (set_canvas c h) Hinv) as (Hl & _ & Hi1 & Hh1 & Hn1);
    [ simpl; lia | ].
  simpl in Hl, Hi1, Hh1.
  set (h1 := enregistrerEtat toJSON (set_canvas c h)) in *.
  set (kept := take (Z.to_nat (currentIndex h + 1)) (history h)) in *.
  assert (Hk : length kept = Z.to_nat (currentIndex h + 1)).
  { unfold kept. rewrite length_take. unfold len in Hi. lia. }
  assert (Hb : currentIndex h + 1 <= limit h).
  { destruct Hinv as (Hbound & _ & _). simpl in Hbound. lia. }
  assert (Hprev : js_index (history h1) (currentIndex h1 - 1) = Some s).
  { rewrite Hh1, Hi1. unfold js_index in *.
    destruct (currentIndex h <? 0) eqn:E0; [ discriminate | ].
    destruct (Z.min (currentIndex h + 1) (limit h - 1) - 1 <? 0) eqn:E1; [ lia | ].
    rewrite lookup_app_l.
    - destruct (limit h <? currentIndex h + 2) eqn:E2.
      + rewrite lookup_drop. unfold kept. rewrite lookup_take_lt by lia.
        rewrite <- Hs. f_equal. lia.
      + unfold kept. rewrite lookup_take_lt by lia.
        rewrite <- Hs. f_equal. lia.
    - destruct (limit h <? currentIndex h + 2) eqn:E2;
        rewrite ?length_drop; lia. }
  rewrite (annuler_eq h1 s) by (auto; lia).
  eexists. split; [ reflexivity | ]. simpl.
  split; [ reflexivity | ]. split; [ exact Hprev | ].
  unfold canRedo. simpl. lia.
Qed.

(** X5. Undo followed by redo, and redo followed by undo, give back the
    ledger they started from: in a reachable state with a snapshot, where
    the first call passes its guard, both calls return and the result has the sequence,
    the cursor, the limit and the buttons of the start; its canvas is the
    snapshot under the cursor, loaded and rebuilt. *)
Theorem undo_redo_round_trip h :
  reachable toJSON loadFromJSON h -> history h <> [] ->
  exists s,
    js_index (history h) (currentIndex h) = Some s
    /\ (canUndo h = true ->
        exists h1, annuler loadFromJSON h = inr h1
          /\ retablir loadFromJSON h1
             = inr (set_canvas (reloaded loadFromJSON s) h))
    /\ (canRedo h = true ->
        exists h1, retablir loadFromJSON h = inr h1
          /\ annuler loadFromJSON h1
             = inr (set_canvas (reloaded loadFromJSON s) h)).
Proof.
  intros Hr Hne.
  pose proof (reachable_inv toJSON loadFromJSON h Hr) as Hinv.
  destruct (inv_cursor_snapshot h Hinv Hne) as [s Hs].
  exists s. split; [ exact Hs | ].
  assert (Hi : 0 <= currentIndex h < len (history h)).
  { destruct Hinv as (_ & [[? _] | ?] & _); [ contradiction | assumption ]. }
  assert (Hbtn : updateButtons h = h) by (destruct Hinv as (_ & _ & ?); assumption).
  split.
  - unfold canUndo. intros Hu.
    destruct (js_index_in_range (history h) (currentIndex h - 1)) as [s1 Hs1]; [ lia | ].
    eexists. split; [ apply (annuler_eq h s1); [ lia | exact Hs1 ] | ].
    rewrite (retablir_eq _ s); simpl.
    + f_equal. replace (currentIndex h - 1 + 1) with (currentIndex h) by lia.
      apply (moved_and_back h _ _ _ Hbtn).
    + lia.
    + replace (currentIndex h - 1 + 1) with (currentIndex h) by lia. exact Hs.
  - unfold canRedo. intros Hu.
    destruct (js_index_in_range (history h) (currentIndex h + 1)) as [s1 Hs1]; [ lia | ].
    eexists. split; [ apply (retablir_eq h s1); [ lia | exact Hs1 ] | ].
    rewrite (annuler_eq _ s); simpl.
    + f_equal. replace (currentIndex h + 1 - 1) with (currentIndex h) by lia.
      apply (moved_and_back h _ _ _ Hbtn).
    + lia.
    + replace (currentIndex h + 1 - 1) with (currentIndex h) by lia. exact Hs.
Qed.

(** X6. As long as nothing is undone the ledger is a sliding window over
    what was recorded: from a reachable state with a positive limit,
    recording one scene after the other leaves the last [limit] snapshots
    of the sequence made of the snapshots up to the cursor followed by the
    new ones, in that order. *)
Theorem ledger_is_sliding_window h c cs :
  reachable toJSON loadFromJSON h -> 0 < limit h ->
  let recorded := take (Z.to_nat (currentIndex h + 1)) (history h)
                  ++ (toJSON <$> c :: cs) in
  history (record_each toJSON (c :: cs) h)
  = drop (length recorded - Z.to_nat (limit h)) recorded.
Proof.
  intros Hr Hlim.
  exact (record_each_recorded toJSON h c cs
           (reachable_inv toJSON loadFromJSON h Hr) Hlim).
Qed.


End LedgerMore.

(** ** The rebuilder (script.js:134-151) *)

Lemma relinked_falsy (c : Canvas) (a : Attr) :
  truthy a = false -> relinked c a = a.
Proof. intros H. unfold relinked. rewrite H. reflexivity. Qed.

Lemma rebuilt_ids (c c0 : Canvas) : o_id <$> (rebuilt c0 <$> c) = o_id <$> c.
Proof.
  rewrite <- list_fmap_compose. apply list_fmap_ext.
  intros i o _. simpl. apply rebuilt_id.
Qed.

Lemma relinked_twice (c : Canvas) (a : Attr) :
  relinked c (relinked c a) = relinked c a.
Proof.
  destruct (truthy a) eqn:Ht.
  - destruct (find_by_id c (lookup_key c a)) as [[k o] | ] eqn:Hf.
    + assert (E : relinked c a = ALive k)
        by (unfold relinked; rewrite Ht, Hf; reflexivity).
      rewrite E. unfold relinked. simpl.
      pose proof Hf as Hf'. apply list_find_Some in Hf' as (Hk & Hid & _).
      rewrite Hk. simpl. rewrite Hid, Hf. reflexivity.
    + assert (E : relinked c a = a)
        by (unfold relinked; rewrite Ht, Hf; reflexivity).
      rewrite E. exact E.
  - rewrite (relinked_falsy c a Ht). apply relinked_falsy, Ht.
Qed.

(** X8. The rebuilder returns without throwing and only touches links: the
    canvas keeps its objects in number and order, every object keeps its
    type, [id] and text, an object that is not a rect, a circle or a
    triangle is left exactly as it was, and so is every attribute that is
    not truthy. *)
Theorem rebuilder_only_touches_links (c : Canvas) :
  exists c',
    reestablishAssociations c = inr c'
    /\ length c' = length c
    /\ forall (i : nat) o, c !! i = Some o ->
         exists o', c' !! i = Some o'
           /\ o_type o' = o_type o /\ o_id o' = o_id o /\ o_text o' = o_text o
           /\ (measurable (o_type o) = false -> o' = o)
           /\ forall sd, truthy (side_attr sd o) = false ->
                         side_attr sd o' = side_attr sd o.
Proof.
  exists (rebuilt c <$> c).
  split; [ apply reestablishAssociations_rebuilt | ].
  split; [ apply length_fmap | ].
  intros i o Ho. exists (rebuilt c o).
  split; [ rewrite list_lookup_fmap, Ho; reflexivity | ].
  split; [ apply rebuilt_type | ]. split; [ apply rebuilt_id | ].
  split; [ apply rebuilt_text | ].
  split.
  - intros Hm. unfold rebuilt. rewrite Hm. reflexivity.
  - intros sd Hf. rewrite rebuilt_side.
    destruct (measurable _); [ apply relinked_falsy, Hf | reflexivity ].
Qed.

(** X9. Running the rebuilder a second time changes nothing: the canvas it
    returns is a fixed point. *)
Theorem rebuilder_idempotent (c : Canvas) :
  exists c',
    reestablishAssociations c = inr c'
    /\ reestablishAssociations c' = inr c'.
Proof.
  exists (rebuilt c <$> c).
  split; [ apply reestablishAssociations_rebuilt | ].
  rewrite reestablishAssociations_rebuilt. f_equal.
  rewrite <- list_fmap_compose. apply list_fmap_ext.
  intros i o _. simpl.
  assert (Hids : o_id <$> (rebuilt c <$> c) = o_id <$> c) by apply rebuilt_ids.
  unfold rebuilt at 1. rewrite rebuilt_type.
  destruct (measurable (o_type o)) eqn:Hm; [ | unfold rebuilt; rewrite Hm; reflexivity ].
  rewrite !(relinked_ids _ c _ Hids).
  unfold rebuilt. rewrite Hm. simpl.
  unfold set_lengthMeasurementText, set_measurementText. simpl.
  rewrite !relinked_twice. reflexivity.
Qed.

Lemma first_match_wins_aux (c : Canvas) (i k : nat) o target sd :
  c !! i = Some o ->
  measurable (o_type o) = true ->
  truthy (side_attr sd o) = true ->
  c !! k = Some target ->
  o_id target = lookup_key c (side_attr sd o) ->
  (forall (j : nat) other, c !! j = Some other -> (j < k)%nat ->
      o_id other <> lookup_key c (side_attr sd o)) ->
  exists c' o',
    reestablishAssociations c = inr c'
    /\ c' !! i = Some o'
    /\ side_attr sd o' = ALive k.
Proof.
  intros Ho Hm Ht Hk Hid Hfirst.
  exists (rebuilt c <$> c), (rebuilt c o).
  split; [ apply reestablishAssociations_rebuilt | ].
  split; [ rewrite list_lookup_fmap, Ho; reflexivity | ].
  rewrite rebuilt_side, Hm. unfold relinked. rewrite Ht.
  assert (Hf : find_by_id c (lookup_key c (side_attr sd o)) = Some (k, target)).
  { apply list_find_Some. split; [ exact Hk | ]. split; [ exact Hid | ].
    intros j other Hj Hlt. apply (Hfirst j other Hj Hlt). }
  rewrite Hf. reflexivity.
Qed.

(** X10. The first object with the looked-up [id] wins.  If an object of
    type rect, circle or triangle has a truthy side-channel attribute, and
    position [k] is the first one of the canvas whose object has the [id]
    that the attribute yields, the rebuilder makes the attribute a live
    reference to position [k], whatever it has done to the objects before
    and whatever other objects carry the same [id]. *)
Theorem first_match_wins (c : Canvas) (i k : nat) o target sd :
  c !! i = Some o ->
  measurable (o_type o) = true ->
  truthy (side_attr sd o) = true ->
  c !! k = Some target ->
  o_id target = lookup_key c (side_attr sd o) ->
  (forall (j : nat) other, c !! j = Some other -> (j < k)%nat ->
      o_id other <> lookup_key c (side_attr sd o)) ->
  exists c' o',
    reestablishAssociations c = inr c'
    /\ c' !! i = Some o'
    /\ side_attr sd o' = ALive k.
Proof. exact (first_match_wins_aux c i k o target sd). Qed.


(** ** The call sites (script.js:412-626) *)

Lemma front_position_last (n j : nat) : front_position (S n) n j = j.
Proof.
  unfold front_position.
  destruct (decide (S n <= n \/ S n <= j)%nat) as [H | H]; [ reflexivity | ].
  destruct (decide (j < n)%nat); [ reflexivity | ].
  destruct (decide (j = n)); lia.
Qed.

Lemma renumber_same (f : nat -> nat) (o : Obj) :
  (forall j, f j = j) -> renumber f o = o.
Proof.
  intros Hf. destruct o as [t i x m l]. unfold renumber. simpl.
  destruct m, l; simpl; rewrite ?Hf; reflexivity.
Qed.

(** Bringing the object painted last to the front changes nothing. *)
Lemma bringToFront_last (c : Canvas) (o : Obj) :
  bringToFront (length c) (c ++ [o]) = c ++ [o].
Proof.
  unfold bringToFront. rewrite list_lookup_middle by reflexivity.
  rewrite delete_take_drop.
  rewrite take_app_length.
  rewrite drop_ge by (rewrite length_app; simpl; lia).
  rewrite app_nil_r.
  rewrite length_app. simpl.
  replace (length c + 1)%nat with (S (length c)) by lia.
  rewrite <- (list_fmap_id (c ++ [o])) at 2.
  apply list_fmap_ext. intros i x _. apply renumber_same, front_position_last.
Qed.

Lemma lookup_two_0 (c : Canvas) (a b : Obj) : (c ++ [a; b]) !! length c = Some a.
Proof. apply list_lookup_middle. reflexivity. Qed.

Lemma lookup_two_1 (c : Canvas) (a b : Obj) : (c ++ [a; b]) !! S (length c) = Some b.
Proof.
  replace (c ++ [a; b]) with ((c ++ [a]) ++ [b]) by (rewrite <- app_assoc; reflexivity).
  apply list_lookup_middle. rewrite length_app. simpl. lia.
Qed.

Lemma alter_two_0 (f : Obj -> Obj) (c : Canvas) (a b : Obj) :
  alter f (length c) (c ++ [a; b]) = c ++ [f a; b].
Proof.
  rewrite alter_app_r_alt by lia.
  replace (length c - length c)%nat with 0%nat by lia. reflexivity.
Qed.

Lemma alter_two_1 (f : Obj -> Obj) (c : Canvas) (a b : Obj) :
  alter f (S (length c)) (c ++ [a; b]) = c ++ [a; f b].
Proof.
  rewrite alter_app_r_alt by lia.
  replace (S (length c) - length c)%nat with 1%nat by lia. reflexivity.
Qed.

Lemma bringToFront_two (c : Canvas) (a b : Obj) :
  bringToFront (S (length c)) (c ++ [a; b]) = c ++ [a; b].
Proof.
  replace (c ++ [a; b]) with ((c ++ [a]) ++ [b]) by (rewrite <- app_assoc; reflexivity).
  replace (S (length c)) with (length (c ++ [a])) by (rewrite length_app; simpl; lia).
  apply bringToFront_last.
Qed.

Section CallSiteFacts.

Context {Snapshot : Type}.
Variable toJSON : Canvas -> Snapshot.
Variable loadFromJSON : Snapshot -> Canvas.

Implicit Types (h : HistoryModule Snapshot) (c : Canvas).

(** What [addCircle] and [addTriangle] do after the shape has been put on
    the canvas: two recordings, the second one before the label gets its
    text and before the shape gets its link. *)
Lemma add_measured_shape_eq (type formatted : string) h :
  measurable type = true ->
  let c := canvas h in
  let shape := new_object type EmptyString in
  let label := new_object "text" EmptyString in
  addShapeMeasurements toJSON formatted (length c)
    (enregistrerEtat toJSON (set_canvas (canvas_add shape c) h))
  = inr (set_canvas
           (c ++ [set_measurementText (ALive (S (length c))) shape;
                  set_text formatted label])
           (enregistrerEtat toJSON
              (set_canvas (c ++ [shape; label])
                 (enregistrerEtat toJSON (set_canvas (c ++ [shape]) h))))).
Proof.
  intros Hm c shape label. unfold addShapeMeasurements, canvas_add.
  rewrite !record_canvas. simpl canvas.
  fold c. fold shape. fold label.
  replace ((c ++ [shape]) ++ [label]) with (c ++ [shape; label])
    by (rewrite <- app_assoc; reflexivity).
  assert (Hlen1 : length (c ++ [shape]) = S (length c))
    by (rewrite length_app; simpl; lia).
  assert (Hlen2 : length (c ++ [shape; label]) = S (S (length c)))
    by (rewrite length_app; simpl; lia).
  rewrite Hlen1, Hlen2.
  unfold updateShapeMeasurements. simpl truthy. cbv iota.
  rewrite lookup_two_0. simpl o_type. rewrite Hm.
  rewrite alter_two_1, bringToFront_two. simpl.
  rewrite !front_position_last.
  rewrite alter_two_0. reflexivity.
Qed.

(** Two recordings in a row on a reachable ledger with room for two. *)
Lemma two_recordings h c1 c2 :
  reachable toJSON loadFromJSON h -> 2 <= limit h ->
  let h2 := enregistrerEtat toJSON
              (set_canvas c2 (enregistrerEtat toJSON (set_canvas c1 h))) in
  exists front,
    history h2 = front ++ [toJSON c1; toJSON c2]
    /\ currentIndex h2 = len front + 1
    /\ ledger_inv h2.
Proof.
  intros Hr Hlim. cbv zeta.
  pose proof (reachable_inv toJSON loadFromJSON h Hr) as Hinv.
  destruct (record_keeps_recent toJSON (set_canvas c1 h)
              (take (Z.to_nat (currentIndex h + 1)) (history h)) [])
    as (f1 & Hh1 & Hi1 & Hinv1 & Hl1).
  { apply set_canvas_inv, Hinv. }
  { simpl. rewrite app_nil_r. reflexivity. }
  { unfold len. simpl. lia. }
  simpl in Hh1, Hi1, Hl1. unfold len in Hi1. simpl in Hi1.
  set (h1 := enregistrerEtat toJSON (set_canvas c1 h)) in *.
  destruct (record_keeps_recent toJSON (set_canvas c2 h1) f1 [toJSON c1])
    as (f2 & Hh2 & Hi2 & Hinv2 & Hl2).
  { apply set_canvas_inv, Hinv1. }
  { simpl. rewrite Hh1, Hi1. apply take_ge. rewrite length_app. simpl. lia. }
  { unfold len. simpl. lia. }
  simpl in Hh2, Hi2. unfold len in Hi2. simpl in Hi2.
  exists f2. split; [ exact Hh2 | ]. split; [ unfold len; lia | exact Hinv2 ].
Qed.

Lemma adding_a_shape_records_twice h (formatted : string) :
  reachable toJSON loadFromJSON h -> 2 <= limit h ->
  forall (add : string -> HistoryModule Snapshot -> Exc (HistoryModule Snapshot))
         (type : string),
    (add = addCircle toJSON /\ type = "circle"%string)
    \/ (add = addTriangle toJSON /\ type = "triangle"%string) ->
    let c := canvas h in
    let shape := new_object type EmptyString in
    let label := new_object "text" EmptyString in
    exists h' front h2,
      add formatted h = inr h'
      /\ canvas h' = c ++ [set_measurementText (ALive (S (length c))) shape;
                           set_text formatted label]
      /\ history h' = front ++ [toJSON (c ++ [shape]); toJSON (c ++ [shape; label])]
      /\ currentIndex h' = len front + 1
      /\ annuler loadFromJSON h' = inr h2
      /\ canvas h2 = reloaded loadFromJSON (toJSON (c ++ [shape])).
Proof.
  intros Hr Hlim add type Hadd c shape label.
  assert (Hm : measurable type = true)
    by (destruct Hadd as [[_ ->] | [_ ->]]; reflexivity).
  assert (Heq : add formatted h
                = addShapeMeasurements toJSON formatted (length c)
                    (enregistrerEtat toJSON (set_canvas (canvas_add shape c) h))).
  { destruct Hadd as [[-> ->] | [-> ->]]; reflexivity. }
  rewrite Heq. unfold c, shape, label.
  rewrite (add_measured_shape_eq type formatted h Hm).
  fold c. fold shape. fold label.
  destruct (two_recordings h (c ++ [shape]) (c ++ [shape; label]) Hr Hlim)
    as (front & Hh & Hi & Hinv).
  set (hrec := enregistrerEtat toJSON
                 (set_canvas (c ++ [shape; label])
                    (enregistrerEtat toJSON (set_canvas (c ++ [shape]) h)))) in *.
  eexists. exists front. eexists.
  split; [ reflexivity | ]. split; [ reflexivity | ].
  split; [ exact Hh | ]. split; [ exact Hi | ].
  split.
  - apply (annuler_eq loadFromJSON _ (toJSON (c ++ [shape]))).
    + simpl. pose proof (len_nonneg front). lia.
    + simpl. rewrite Hh, Hi.
      replace (len front + 1 - 1) with (len front) by lia.
      unfold js_index, len.
      destruct (Z.of_nat (length front) <? 0) eqn:E; [ apply Z.ltb_lt in E; lia | ].
      rewrite Nat2Z.id. apply list_lookup_middle. reflexivity.
  - reflexivity.
Qed.

(** X12. One click on the circle button makes two recordings, and the
    later one is taken too early.  On a reachable ledger with a limit of at
    least 2 [addCircle] returns; the canvas then ends with the circle,
    linked to its label, and the label with its text; but the two newest
    snapshots are the one of the canvas with the circle alone and, under
    the cursor, the one of the canvas with the circle still unlinked and
    the label still empty.  A single undo therefore leaves the circle on
    the canvas: it loads the snapshot with the circle alone. *)
Theorem adding_a_circle_records_twice h (formatted : string) :
  reachable toJSON loadFromJSON h -> 2 <= limit h ->
  let c := canvas h in
  let shape := new_object "circle" EmptyString in
  let label := new_object "text" EmptyString in
  exists h' front h2,
    addCircle toJSON formatted h = inr h'
    /\ canvas h' = c ++ [set_measurementText (ALive (S (length c))) shape;
                         set_text formatted label]
    /\ history h' = front ++ [toJSON (c ++ [shape]); toJSON (c ++ [shape; label])]
    /\ currentIndex h' = len front + 1
    /\ annuler loadFromJSON h' = inr h2
    /\ canvas h2 = reloaded loadFromJSON (toJSON (c ++ [shape])).
Proof.
  intros Hr Hlim.
  apply (adding_a_shape_records_twice h formatted Hr Hlim (addCircle toJSON)).
  left. split; reflexivity.
Qed.

(** X13. The same for the triangle button: [addTriangle] records the
    canvas with the triangle alone, then the canvas with the unlinked
    triangle and the empty label, and only then fills the label and sets
    the link; a single undo leaves the triangle on the canvas. *)
Theorem adding_a_triangle_records_twice h (formatted : string) :
  reachable toJSON loadFromJSON h -> 2 <= limit h ->
  let c := canvas h in
  let shape := new_object "triangle" EmptyString in
  let label := new_object "text" EmptyString in
  exists h' front h2,
    addTriangle toJSON formatted h = inr h'
    /\ canvas h' = c ++ [set_measurementText (ALive (S (length c))) shape;
                         set_text formatted label]
    /\ history h' = front ++ [toJSON (c ++ [shape]); toJSON (c ++ [shape; label])]
    /\ currentIndex h' = len front + 1
    /\ annuler loadFromJSON h' = inr h2
    /\ canvas h2 = reloaded loadFromJSON (toJSON (c ++ [shape])).
Proof.
  intros Hr Hlim.
  apply (adding_a_shape_records_twice h formatted Hr Hlim (addTriangle toJSON)).
  right. split; reflexivity.
Qed.

(** The state of the module while a rectangle is being drawn on top of the
    canvas of [h]: the rectangle and its label are the last two objects,
    the label shows [text]. *)
Lemma drawing_step (fixed : bool) (text formatted : string) h :
  let n := length (canvas h) in
  let mode := if fixed then "rectangle-fixed-height"%string else "rectangle"%string in
  let link := if fixed then set_lengthMeasurementText else set_measurementText in
  let drawing t :=
    mkShapes
      (set_canvas
         (canvas h ++ [link (ALive (S n)) (new_object "rect" EmptyString);
                       set_text t (new_object "text" EmptyString)]) h)
      (Some mode) true (Some n) in
  onMouseMove formatted (drawing text) = inr (drawing formatted).
Proof.
  intros n mode link drawing. subst drawing link mode n.
  unfold onMouseMove. cbv beta. simpl currentlyDrawing. simpl tempShape.
  simpl drawingMode. simpl historyModule. simpl canvas. cbv iota.
  rewrite lookup_two_0. simpl from_option.
  destruct fixed.
  - rewrite (bool_decide_eq_false_2 _) by discriminate.
    rewrite (bool_decide_eq_true_2 _) by reflexivity.
    cbn [lengthMeasurementText set_lengthMeasurementText].
    unfold updateFixedRectangleMeasurement. cbn [truthy].
    rewrite alter_two_1, bringToFront_two. simpl bind.
    unfold after_front. rewrite length_app. simpl length.
    replace (length (canvas h) + 2)%nat with (S (S (length (canvas h)))) by lia.
    rewrite front_position_last. reflexivity.
  - rewrite (bool_decide_eq_true_2 _) by reflexivity.
    cbn [measurementText set_measurementText].
    unfold updateShapeMeasurements. cbn [truthy].
    rewrite lookup_two_0. cbn [o_type set_measurementText new_object].
    change (measurable "rect") with true. cbv iota.
    rewrite alter_two_1, bringToFront_two. simpl bind.
    unfold after_front. rewrite length_app. simpl length.
    replace (length (canvas h) + 2)%nat with (S (S (length (canvas h)))) by lia.
    rewrite front_position_last. reflexivity.
Qed.

Lemma last_cons_default {A} (l : list A) : forall x d : A,
  default d (last (x :: l)) = default x (last l).
Proof.
  induction l as [ | y l IH]; intros x d; [ reflexivity | ].
  rewrite last_cons_cons. rewrite (IH y d), (IH y x). reflexivity.
Qed.

Lemma drawing_moves (fixed : bool) (texts : list string) h : forall text : string,
  let n := length (canvas h) in
  let mode := if fixed then "rectangle-fixed-height"%string else "rectangle"%string in
  let link := if fixed then set_lengthMeasurementText else set_measurementText in
  let drawing t :=
    mkShapes
      (set_canvas
         (canvas h ++ [link (ALive (S n)) (new_object "rect" EmptyString);
                       set_text t (new_object "text" EmptyString)]) h)
      (Some mode) true (Some n) in
  mouse_moves texts (drawing text) = inr (drawing (default text (last texts))).
Proof.
  induction texts as [ | t rest IH]; intros text n mode link drawing.
  - reflexivity.
  - simpl mouse_moves.
    pose proof (drawing_step fixed text t h) as Hstep. cbv zeta in Hstep.
    fold n in Hstep. fold mode in Hstep. fold link in Hstep.
    unfold drawing at 1. rewrite Hstep. simpl bind.
    pose proof (IH t) as IH'. cbv zeta in IH'.
    fold n in IH'. fold mode in IH'. fold link in IH'.
    rewrite IH'. rewrite last_cons_default. reflexivity.
Qed.

(** X14. A drawing gesture records exactly once, at the end.  With the
    rectangle tool selected, button down, any number of mouse moves and
    button up never throw and leave the ledger as one call of
    [enregistrerEtat] leaves it on the finished scene: the canvas followed
    by the rectangle, linked to its label, and the label with the text of
    the last move (empty without a move).  The same holds for the
    fixed-height tool with the length label.  The tool is then deselected;
    and when no tool is selected and no drawing is under way, a gesture
    changes nothing and records nothing. *)
Theorem gesture_records_once h (texts : list string) (busy : bool) (stale : option nat) :
  let n := length (canvas h) in
  let rect := new_object "rect" EmptyString in
  let label := set_text (default EmptyString (last texts))
                 (new_object "text" EmptyString) in
  gesture toJSON texts (mkShapes h (Some "rectangle"%string) busy stale)
  = inr (mkShapes
           (enregistrerEtat toJSON
              (set_canvas
                 (canvas h ++ [set_measurementText (ALive (S n)) rect; label]) h))
           None false None)
  /\ gesture toJSON texts (mkShapes h (Some "rectangle-fixed-height"%string) busy stale)
     = inr (mkShapes
              (enregistrerEtat toJSON
                 (set_canvas
                    (canvas h ++ [set_lengthMeasurementText (ALive (S n)) rect; label]) h))
              None false None)
  /\ forall s : ShapesModule Snapshot,
       mode_set (drawingMode s) = false -> currentlyDrawing s = false ->
       gesture toJSON texts s = inr s.
Proof.
  intros n rect label. subst n rect label. split; [ | split ].
  - unfold gesture.
    assert (Hdown : onMouseDown (mkShapes h (Some "rectangle"%string) busy stale)
                    = mkShapes
                        (set_canvas
                           (canvas h ++ [set_measurementText (ALive (S (length (canvas h))))
                                           (new_object "rect" EmptyString);
                                         set_text EmptyString (new_object "text" EmptyString)]) h)
                        (Some "rectangle"%string) true (Some (length (canvas h)))).
    { unfold onMouseDown, canvas_add. simpl.
      rewrite <- app_assoc. simpl. rewrite alter_two_0. reflexivity. }
    rewrite Hdown.
    pose proof (drawing_moves false texts h EmptyString) as Hm.
    cbv beta zeta iota in Hm. rewrite Hm. reflexivity.
  - unfold gesture.
    assert (Hdown : onMouseDown (mkShapes h (Some "rectangle-fixed-height"%string) busy stale)
                    = mkShapes
                        (set_canvas
                           (canvas h ++ [set_lengthMeasurementText (ALive (S (length (canvas h))))
                                           (new_object "rect" EmptyString);
                                         set_text EmptyString (new_object "text" EmptyString)]) h)
                        (Some "rectangle-fixed-height"%string) true (Some (length (canvas h)))).
    { unfold onMouseDown, canvas_add. simpl.
      rewrite <- app_assoc. simpl. rewrite alter_two_0. reflexivity. }
    rewrite Hdown.
    pose proof (drawing_moves true texts h EmptyString) as Hm.
    cbv beta zeta iota in Hm. rewrite Hm. reflexivity.
  - intros s Hmode Hidle. unfold gesture.
    assert (Hdown : onMouseDown s = s) by (unfold onMouseDown; rewrite Hmode; reflexivity).
    rewrite Hdown.
    assert (Hmoves : mouse_moves texts s = inr s).
    { induction texts as [ | t rest IH]; [ reflexivity | ].
      simpl. unfold onMouseMove. rewrite Hidle. simpl. exact IH. }
    rewrite Hmoves. simpl. unfold onMouseUp. rewrite Hidle. reflexivity.
Qed.

End CallSiteFacts.

(** ** The table (script.js:723-795) *)

Lemma bind_blocks_length {A B} (f : A -> list B) (k : nat) (l : list A) :
  (forall x, length (f x) = k) -> length (l ≫= f) = (length l * k)%nat.
Proof.
  intros Hk. induction l as [ | x l IH]; [ reflexivity | ].
  rewrite bind_cons, length_app, Hk, IH. simpl. lia.
Qed.

Lemma bind_blocks_lookup {A B} (f : A -> list B) (k : nat) (l : list A) :
  (forall x, length (f x) = k) ->
  forall (i j : nat) x, l !! i = Some x -> (j < k)%nat ->
    (l ≫= f) !! (i * k + j)%nat = f x !! j.
Proof.
  intros Hk. induction l as [ | y l IH]; intros i j x Hi Hj; [ discriminate | ].
  rewrite bind_cons. destruct i as [ | i]; simpl in Hi.
  - injection Hi as ->. simpl. rewrite lookup_app_l by (rewrite Hk; lia). reflexivity.
  - rewrite lookup_app_r by (rewrite Hk; simpl; lia).
    rewrite Hk. replace (S i * k + j - k)%nat with (i * k + j)%nat by (simpl; lia).
    apply IH; assumption.
Qed.

Lemma table_row_length (row cols : Z) :
  length (seqZ 0 cols ≫= fun col => [cell_rect row col; cell_text row col])
  = (Z.to_nat cols * 2)%nat.
Proof.
  rewrite (bind_blocks_length _ 2) by reflexivity.
  rewrite length_seqZ. reflexivity.
Qed.

Lemma table_children_elem (rows cols : Z) (x : TableChild) :
  x ∈ table_children rows cols <->
  exists row col, 0 <= row < rows /\ 0 <= col < cols
                  /\ (x = cell_rect row col \/ x = cell_text row col).
Proof.
  unfold table_children. rewrite list_elem_of_bind. split.
  - intros (row & Hx & Hrow). apply list_elem_of_bind in Hx as (col & Hx & Hcol).
    apply elem_of_seqZ in Hrow. apply elem_of_seqZ in Hcol.
    exists row, col. split; [ lia | ]. split; [ lia | ].
    apply elem_of_cons in Hx as [-> | Hx]; [ left; reflexivity | ].
    apply list_elem_of_singleton in Hx as ->. right; reflexivity.
  - intros (row & col & Hrow & Hcol & Hx).
    exists row. split; [ | apply elem_of_seqZ; lia ].
    apply list_elem_of_bind. exists col. split; [ | apply elem_of_seqZ; lia ].
    destruct Hx as [-> | ->]; [ left | right; left ].
Qed.

(** X15. The children of the table come row by row, each cell followed by
    its text box: there are [2 * rows * cols] of them, and for every row
    [r] and column [c] of the table the child number [2 * (r * cols + c)]
    is the cell at [(60 c, 30 r)] of size 60 by 30 and the next one is its
    text box at [(60 c + 5, 30 r + 5)] of size 50 by 20. *)
Theorem table_children_layout (rows cols r c : Z) :
  0 <= r < rows -> 0 <= c < cols ->
  length (table_children rows cols) = (2 * Z.to_nat rows * Z.to_nat cols)%nat
  /\ table_children rows cols !! (2 * Z.to_nat (r * cols + c))%nat
     = Some (CellRect (mkBox (60 * c) (30 * r) 60 30))
  /\ table_children rows cols !! S (2 * Z.to_nat (r * cols + c))
     = Some (CellText (mkBox (60 * c + 5) (30 * r + 5) 50 20)).
Proof.
  intros Hr Hc. unfold table_children.
  split.
  { rewrite (bind_blocks_length _ (Z.to_nat cols * 2)) by (intros; apply table_row_length).
    rewrite length_seqZ. lia. }
  assert (Hrow : seqZ 0 rows !! Z.to_nat r = Some r).
  { rewrite lookup_seqZ_lt by lia. f_equal. lia. }
  assert (Hcol : seqZ 0 cols !! Z.to_nat c = Some c).
  { rewrite lookup_seqZ_lt by lia. f_equal. lia. }
  assert (Hcell : forall e : nat, (e < 2)%nat ->
            (seqZ 0 rows ≫= fun row =>
               seqZ 0 cols ≫= fun col => [cell_rect row col; cell_text row col])
              !! (2 * Z.to_nat (r * cols + c) + e)%nat
            = [cell_rect r c; cell_text r c] !! e).
  { intros e He.
    replace (2 * Z.to_nat (r * cols + c) + e)%nat
      with (Z.to_nat r * (Z.to_nat cols * 2) + (Z.to_nat c * 2 + e))%nat by nia.
    rewrite (bind_blocks_lookup _ (Z.to_nat cols * 2) _
               (fun row => table_row_length row cols) _ _ r Hrow) by nia.
    apply (bind_blocks_lookup (fun col => [cell_rect r col; cell_text r col]) 2
             (seqZ 0 cols) (fun _ => eq_refl) _ _ c Hcol He). }
  split.
  - rewrite <- (Nat.add_0_r (2 * _)). rewrite (Hcell 0%nat) by lia.
    simpl. unfold cell_rect, cellWidth, cellHeight. do 3 f_equal; lia.
  - replace (S (2 * Z.to_nat (r * cols + c))) with (2 * Z.to_nat (r * cols + c) + 1)%nat by lia.
    rewrite (Hcell 1%nat) by lia.
    simpl. unfold cell_text, cellWidth, cellHeight. do 3 f_equal; lia.
Qed.

(** X16. The table is a proper grid.  Every cell lies inside the area of
    [60 * cols] by [30 * rows] that starts at the origin, two different
    cells share no area, and every text box lies inside a cell of the
    table, 5 units away from each of its sides. *)
Theorem table_is_a_grid (rows cols : Z) :
  (forall b, CellRect b ∈ table_children rows cols ->
     inside_box b (mkBox 0 0 (60 * cols) (30 * rows)))
  /\ (forall b1 b2,
        CellRect b1 ∈ table_children rows cols ->
        CellRect b2 ∈ table_children rows cols ->
        b1 <> b2 -> disjoint_boxes b1 b2)
  /\ (forall t, CellText t ∈ table_children rows cols ->
        exists b, CellRect b ∈ table_children rows cols
          /\ inside_box t b
          /\ b_left t = b_left b + 5 /\ b_top t = b_top b + 5
          /\ b_left t + b_width t = b_left b + b_width b - 5
          /\ b_top t + b_height t = b_top b + b_height b - 5).
Proof.
  split; [ | split ].
  - intros b Hb. apply table_children_elem in Hb
      as (row & col & Hrow & Hcol & [Hx | Hx]); [ | discriminate ].
    injection Hx as ->. unfold inside_box, cellWidth, cellHeight. simpl. lia.
  - intros b1 b2 H1 H2 Hne.
    apply table_children_elem in H1 as (r1 & c1 & Hr1 & Hc1 & [Hx1 | Hx1]); [ | discriminate ].
    apply table_children_elem in H2 as (r2 & c2 & Hr2 & Hc2 & [Hx2 | Hx2]); [ | discriminate ].
    injection Hx1 as ->. injection Hx2 as ->.
    unfold disjoint_boxes, cellWidth, cellHeight. simpl.
    destruct (Z.eq_dec r1 r2) as [-> | Hr]; [ | lia ].
    destruct (Z.eq_dec c1 c2) as [-> | Hc]; [ contradiction | lia ].
  - intros t Ht. apply table_children_elem in Ht
      as (row & col & Hrow & Hcol & [Hx | Hx]); [ discriminate | ].
    injection Hx as ->.
    exists (mkBox (col * cellWidth) (row * cellHeight) cellWidth cellHeight).
    split.
    + apply table_children_elem. exists row, col. auto.
    + unfold inside_box, cellWidth, cellHeight. simpl. lia.
Qed.

(** The handler of the table button either rejects its input and
    changes nothing, or adds exactly one object to the canvas, records
    once, and has built a table with at least one cell: it returns
    children only when both answers are numbers greater than 0, and then
    as many as twice the product of the two. *)
Lemma table_button_adds_one_group {Snapshot : Type} (toJSON : Canvas -> Snapshot)
    (rows cols : option Z) (h : HistoryModule Snapshot) :
  (exists r c, rows = Some r /\ cols = Some c /\ 0 < r /\ 0 < c
     /\ addTableClicked toJSON rows cols h
        = (Some (table_children r c),
           enregistrerEtat toJSON
             (set_canvas (canvas h ++ [new_object "group" EmptyString]) h))
     /\ (2 <= length (table_children r c))%nat
     /\ length (table_children r c) = (2 * Z.to_nat r * Z.to_nat c)%nat
     /\ canvas (snd (addTableClicked toJSON rows cols h))
        = canvas h ++ [new_object "group" EmptyString])
  \/ ((rows = None \/ cols = None
       \/ (exists r, rows = Some r /\ r <= 0) \/ (exists c, cols = Some c /\ c <= 0))
      /\ addTableClicked toJSON rows cols h = (None, h)).
Proof.
  assert (Hlen : forall r c, length (table_children r c)
                             = (2 * Z.to_nat r * Z.to_nat c)%nat).
  { intros r c. unfold table_children.
    rewrite (bind_blocks_length _ (Z.to_nat c * 2)) by (intros; apply table_row_length).
    rewrite length_seqZ. lia. }
  destruct rows as [r | ]; [ | right; split; [ auto | reflexivity ] ].
  destruct cols as [c | ]; [ | right; split; [ auto | reflexivity ] ].
  unfold addTableClicked.
  destruct (0 <? r) eqn:Er; simpl.
  - destruct (0 <? c) eqn:Ec; simpl.
    + left. exists r, c.
      split; [ reflexivity | ]. split; [ reflexivity | ].
      split; [ lia | ]. split; [ lia | ].
      split; [ reflexivity | ].
      split; [ rewrite Hlen; nia | ].
      split; [ apply Hlen | ].
      rewrite record_canvas. reflexivity.
    + right. split; [ | reflexivity ].
      right. right. right. exists c. split; [ reflexivity | lia ].
  - right. split; [ | reflexivity ].
    right. right. left. exists r. split; [ reflexivity | lia ].
Qed.

(** ** The calculator (script.js:1070-1083) *)

Lemma string_app_assoc (a b c : string) : ((a ++ b) ++ c = a ++ (b ++ c))%string.
Proof.
  induction a as [ | x a IH]; [ reflexivity | ].
  change (String x ((a ++ b) ++ c) = String x (a ++ (b ++ c)))%string.
  f_equal. exact IH.
Qed.

Lemma string_app_nil_r (a : string) : (a ++ EmptyString = a)%string.
Proof.
  induction a as [ | x a IH]; [ reflexivity | ].
  change (String x (a ++ EmptyString) = String x a)%string.
  f_equal. exact IH.
Qed.

Lemma concat_cons (x : string) (l : list string) :
  String.concat EmptyString (x :: l) = (x ++ String.concat EmptyString l)%string.
Proof. destruct l; simpl; [ rewrite string_app_nil_r | ]; reflexivity. Qed.

Section CalculatorFacts.

Variable evaluate : string -> option string.

Lemma typing_appends (v d : string) :
  typing_key v -> handleCalcButton evaluate v d = (d ++ v)%string.
Proof.
  intros [HC Heq]. unfold handleCalcButton.
  rewrite (bool_decide_eq_false_2 _ HC), (bool_decide_eq_false_2 _ Heq).
  reflexivity.
Qed.

Lemma typing_run (values : list string) : forall d : string,
  Forall typing_key values ->
  press_all evaluate values d = (d ++ String.concat EmptyString values)%string.
Proof.
  induction values as [ | v values IH]; intros d Hall.
  - simpl. rewrite string_app_nil_r. reflexivity.
  - inversion Hall as [ | ? ? Hv Hrest]; subst.
    unfold press_all in *. simpl foldl.
    rewrite (typing_appends v d Hv), (IH _ Hrest).
    rewrite concat_cons, string_app_assoc. reflexivity.
Qed.

(** X17. The display of the calculator after a run of buttons.  Buttons
    other than [C] and [=] append their text in order, also after an
    error message; and whatever was pressed or shown before, whatever the
    evaluation gave, once [C] is pressed the display is exactly the text of
    the typing buttons pressed after it. *)
Theorem calculator_display (before typed : list string) (d : string) :
  Forall typing_key typed ->
  press_all evaluate typed d = (d ++ String.concat EmptyString typed)%string
  /\ press_all evaluate (before ++ "C"%string :: typed) d
     = String.concat EmptyString typed.
Proof.
  intros Hall. split; [ apply typing_run, Hall | ].
  unfold press_all. rewrite foldl_app. simpl foldl.
  change (handleCalcButton evaluate "C" _) with EmptyString.
  exact (typing_run typed EmptyString Hall).
Qed.

End CalculatorFacts.

(** ** The further properties at concrete inputs *)

Lemma ledger_never_exceeds_limit_witness :
  reachable toPortable fromPortable after_drawing
  /\ len (history after_drawing) <= Z.max (limit after_drawing) 0.
Proof.
  split; [ exact after_drawing_reachable | ].
  exact (ledger_never_exceeds_limit toPortable fromPortable after_drawing
           after_drawing_reachable).
Defined.

Lemma nonpositive_limit_witness :
  reachable toPortable fromPortable
    (enregistrerEtat toPortable (constructor rect_with_label (Some 0) None None))
  /\ limit (enregistrerEtat toPortable
              (constructor rect_with_label (Some 0) None None)) <= 0
  /\ history (enregistrerEtat toPortable
                (constructor rect_with_label (Some 0) None None)) = []
  /\ currentIndex (enregistrerEtat toPortable
                     (constructor rect_with_label (Some 0) None None)) = -1.
Proof.
  assert (Hr : reachable toPortable fromPortable
                 (enregistrerEtat toPortable
                    (constructor rect_with_label (Some 0) None None)))
    by apply reach_record, reach_new.
  assert (Hl : limit (enregistrerEtat toPortable
                        (constructor rect_with_label (Some 0) None None)) <= 0)
    by (vm_compute; discriminate).
  destruct (nonpositive_limit_stores_nothing toPortable fromPortable _ Hr Hl)
    as (Hh & Hi & _).
  split; [ exact Hr | ]. split; [ exact Hl | ]. split; [ exact Hh | exact Hi ].
Defined.

Lemma recording_keeps_prefix_witness :
  reachable toPortable fromPortable app_start
  /\ 0 < limit app_start
  /\ js_index (history (enregistrerEtat toPortable app_start))
       (currentIndex (enregistrerEtat toPortable app_start))
     = Some (toPortable (canvas app_start)).
Proof.
  assert (Hl : 0 < limit app_start) by reflexivity.
  destruct (recording_keeps_prefix_and_appends toPortable fromPortable app_start
              app_start_reachable Hl) as (_ & _ & Hs & _).
  split; [ exact app_start_reachable | ]. split; [ exact Hl | exact Hs ].
Defined.

Lemma undo_after_recorded_edit_witness :
  reachable toPortable fromPortable app_start
  /\ 2 <= limit app_start
  /\ js_index (history app_start) (currentIndex app_start) = Some (toPortable [])
  /\ exists h2,
       annuler fromPortable
         (enregistrerEtat toPortable (set_canvas rect_with_label app_start))
       = inr h2
       /\ canvas h2 = reloaded fromPortable (toPortable [])
       /\ js_index (history h2) (currentIndex h2) = Some (toPortable [])
       /\ canRedo h2 = true.
Proof.
  assert (Hl : 2 <= limit app_start) by (vm_compute; discriminate).
  assert (Hs : js_index (history app_start) (currentIndex app_start)
               = Some (toPortable [])) by reflexivity.
  split; [ exact app_start_reachable | ]. split; [ exact Hl | ].
  split; [ exact Hs | ].
  exact (undo_after_recorded_edit toPortable fromPortable app_start
           rect_with_label (toPortable []) app_start_reachable Hl Hs).
Defined.

Lemma undo_redo_round_trip_witness :
  reachable toPortable fromPortable after_drawing
  /\ history after_drawing <> []
  /\ canUndo after_drawing = true
  /\ exists s h1,
       js_index (history after_drawing) (currentIndex after_drawing) = Some s
       /\ annuler fromPortable after_drawing = inr h1
       /\ retablir fromPortable h1
          = inr (set_canvas (reloaded fromPortable s) after_drawing).
Proof.
  assert (Hne : history after_drawing <> []) by (vm_compute; discriminate).
  assert (Hu : canUndo after_drawing = true) by reflexivity.
  destruct (undo_redo_round_trip toPortable fromPortable after_drawing
              after_drawing_reachable Hne) as (s & Hs & Hundo & _).
  destruct (Hundo Hu) as (h1 & H1 & H2).
  split; [ exact after_drawing_reachable | ]. split; [ exact Hne | ].
  split; [ exact Hu | ].
  exists s, h1. split; [ exact Hs | ]. split; [ exact H1 | exact H2 ].
Defined.

Lemma sliding_window_witness :
  reachable toPortable fromPortable small_ledger
  /\ 0 < limit small_ledger
  /\ history (record_each toPortable
                [rect_with_label; circle_alone; triangle_alone] small_ledger)
     = [toPortable circle_alone; toPortable triangle_alone].
Proof.
  assert (Hr : reachable toPortable fromPortable small_ledger)
    by (unfold small_ledger; apply reach_new).
  assert (Hl : 0 < limit small_ledger) by reflexivity.
  split; [ exact Hr | ]. split; [ exact Hl | ].
  exact (ledger_is_sliding_window toPortable fromPortable small_ledger
           rect_with_label [circle_alone; triangle_alone] Hr Hl).
Defined.


Lemma first_match_wins_witness :
  exists c' o',
    reestablishAssociations
      [ mkObj "rect" (PNum 1) EmptyString (APlain (PNum 2) "label") (APrim PUndefined);
        mkObj "text" (PNum 2) "label" (APrim PUndefined) (APrim PUndefined);
        mkObj "text" (PNum 2) "copy" (APrim PUndefined) (APrim PUndefined) ]
    = inr c'
    /\ c' !! 0%nat = Some o'
    /\ measurementText o' = ALive 1.
Proof.
  apply (first_match_wins
           [ mkObj "rect" (PNum 1) EmptyString (APlain (PNum 2) "label") (APrim PUndefined);
             mkObj "text" (PNum 2) "label" (APrim PUndefined) (APrim PUndefined);
             mkObj "text" (PNum 2) "copy" (APrim PUndefined) (APrim PUndefined) ]
           0%nat 1%nat
           (mkObj "rect" (PNum 1) EmptyString (APlain (PNum 2) "label") (APrim PUndefined))
           (mkObj "text" (PNum 2) "label" (APrim PUndefined) (APrim PUndefined))
           Measurement eq_refl eq_refl eq_refl eq_refl eq_refl).
  intros j other Hj Hlt.
  destruct j as [ | j]; [ | lia ].
  simpl in Hj. injection Hj as <-. simpl. discriminate.
Defined.


Lemma adding_a_circle_witness :
  reachable toPortable fromPortable app_start
  /\ 2 <= limit app_start
  /\ exists h' front h2,
       addCircle toPortable "R: 1.32 cm, D: 2.65 cm" app_start = inr h'
       /\ history h'
          = front ++ [toPortable [new_object "circle" EmptyString];
                      toPortable [new_object "circle" EmptyString;
                                  new_object "text" EmptyString]]
       /\ annuler fromPortable h' = inr h2
       /\ canvas h2
          = reloaded fromPortable (toPortable [new_object "circle" EmptyString]).
Proof.
  assert (Hl : 2 <= limit app_start) by (vm_compute; discriminate).
  split; [ exact app_start_reachable | ]. split; [ exact Hl | ].
  destruct (adding_a_circle_records_twice toPortable fromPortable app_start
              "R: 1.32 cm, D: 2.65 cm" app_start_reachable Hl)
    as (h' & front & h2 & H1 & _ & H3 & _ & H5 & H6).
  exists h', front, h2. auto.
Defined.

Lemma adding_a_triangle_witness :
  reachable toPortable fromPortable app_start
  /\ 2 <= limit app_start
  /\ exists h' front h2,
       addTriangle toPortable "A: 2.65 cm" app_start = inr h'
       /\ history h'
          = front ++ [toPortable [new_object "triangle" EmptyString];
                      toPortable [new_object "triangle" EmptyString;
                                  new_object "text" EmptyString]]
       /\ annuler fromPortable h' = inr h2
       /\ canvas h2
          = reloaded fromPortable (toPortable [new_object "triangle" EmptyString]).
Proof.
  assert (Hl : 2 <= limit app_start) by (vm_compute; discriminate).
  split; [ exact app_start_reachable | ]. split; [ exact Hl | ].
  destruct (adding_a_triangle_records_twice toPortable fromPortable app_start
              "A: 2.65 cm" app_start_reachable Hl)
    as (h' & front & h2 & H1 & _ & H3 & _ & H5 & H6).
  exists h', front, h2. auto.
Defined.

Lemma table_children_layout_witness :
  0 <= 1 < 3 /\ 0 <= 2 < 4
  /\ length (table_children 3 4) = 24%nat
  /\ table_children 3 4 !! 12%nat = Some (CellRect (mkBox 120 30 60 30))
  /\ table_children 3 4 !! 13%nat = Some (CellText (mkBox 125 35 50 20)).
Proof.
  assert (Hr : 0 <= 1 < 3) by lia.
  assert (Hc : 0 <= 2 < 4) by lia.
  split; [ exact Hr | ]. split; [ exact Hc | ].
  exact (table_children_layout 3 4 1 2 Hr Hc).
Defined.

Lemma calculator_display_witness :
  Forall typing_key ["2"; "+"; "3"]%string
  /\ press_all (fun _ => None) ["1"; "="; "C"; "2"; "+"; "3"]%string "7"%string
     = "2+3"%string.
Proof.
  assert (Hkeys : Forall typing_key ["2"; "+"; "3"]%string)
    by (repeat constructor; discriminate).
  split; [ exact Hkeys | ].
  exact (proj2 (calculator_display (fun _ => None) ["1"; "="]%string
                  ["2"; "+"; "3"]%string "7"%string Hkeys)).
Defined.
